(** * Broken link checker: the crawl engine and the result aggregator

    A shallow embedding of [brokenlinkchecker-dashboard.py]: the scope
    classifier [is_internal], the link checker [check_link], the link
    extractor [extract_links], the recursive [crawl], the
    de-duplication and summary that follow it in the script, the report
    [generate_html_report] and the script itself.

    Conventions.
    - A Python call either returns or raises: [outcome].
    - The network is an oracle indexed by the number of requests sent so
      far, so the same URL may answer differently at different moments.
    - [urlparse(..).netloc], [urljoin] and the HTML parser belong to
      libraries; they are parameters of the development. Each of them
      can raise (a [ValueError] for a malformed URL, a rejected markup),
      and in [crawl] nothing catches what they raise.
    - Iterating a Python [set] follows no documented order; the order is a
      parameter [set_iter], only known to enumerate the set.
    - In [crawl] the optional collaborators [progress_bar],
      [progress_state] and [live_log] keep their default [None]; the
      branches they guard do not touch [visited] or [results].
      [crawl_ui] is [crawl] with the collaborators, and [main] the
      script that passes them. *)

From Stdlib Require Import ZArith Ascii.
From stdpp Require Import gmap strings list pretty.

Open Scope string_scope.
Open Scope list_scope.
Open Scope Z_scope.

(** ** Python outcomes *)

(** The exception classes the calls of the libraries can raise: those
    of [requests], the [ValueError] of [urlparse] and [urljoin] and the
    [ParserRejectedMarkup] of the parser; every one of them derives
    from [Exception]. *)
Inductive exn : Type :=
  | Timeout
  | ConnectionError
  | InvalidResponse
  | ProtocolError
  | TooManyRedirects
  | InvalidURL
  | HTTPError
  | ValueError
  | ParserRejectedMarkup.

Inductive outcome (A : Type) : Type :=
  | Returned (a : A)
  | Raised (e : exn).
Arguments Returned {A} a.
Arguments Raised {A} e.

(** ** Responses and the network *)

Record Response : Type := mkResponse {
  status_code : Z;
  text : string
}.

(** [Response.raise_for_status] of the [requests] library: an
    [HTTPError] for the client and server error classes. *)
Definition raise_for_status (r : Response) : outcome unit :=
  if bool_decide (400 ≤ status_code r < 600) then Raised HTTPError
  else Returned tt.

(** The answer to the [t]-th request of a run, when it is a [HEAD]
    (respectively a [GET]) of the given URL. *)
Record network : Type := mkNetwork {
  requests_head : nat → string → outcome Response;
  requests_get : nat → string → outcome Response
}.

Inductive request : Type :=
  | HEAD (url : string)
  | GET (url : string).

#[global] Instance request_eq_dec : EqDecision request.
Proof. solve_decision. Defined.

(** ** Parsed markup *)

(** A tag of the parse tree: its name, its attribute dictionary and its
    children. *)
#[warnings="-register-all"]
Inductive Tag : Type :=
  | mkTag (name : string) (attrs : gmap string string) (contents : list Tag).

Definition name (e : Tag) : string := match e with mkTag n _ _ => n end.
Definition attrs (e : Tag) : gmap string string :=
  match e with mkTag _ a _ => a end.

(** Every tag below [t], in document order. *)
Fixpoint descendants (t : Tag) : list Tag :=
  match t with
  | mkTag _ _ cs =>
      (fix go (cs : list Tag) : list Tag :=
         match cs with
         | [] => []
         | c :: cs' => c :: descendants c ++ go cs'
         end) cs
  end.

(** [soup.find_all(tag)] *)
Definition find_all (soup : Tag) (tag : string) : list Tag :=
  filter (λ e, name e = tag) (descendants soup).

(** [element.get(attr)] *)
Definition get (element : Tag) (attr : string) : option string :=
  attrs element !! attr.

(** The references of a page: the non-empty [href] of an [a] or of a
    [link], and the non-empty [src] of an [img] or of a [script]. *)
Definition reference (soup : Tag) (ref : string) : Prop :=
  ref ≠ "" ∧
  ∃ element, element ∈ descendants soup ∧
    (name element = "a" ∧ get element "href" = Some ref ∨
     name element = "img" ∧ get element "src" = Some ref ∨
     name element = "script" ∧ get element "src" = Some ref ∨
     name element = "link" ∧ get element "href" = Some ref).

(** ** Link records and the crawl state *)

(** [(url, status_code, ok, note)] *)
Definition LinkRecord : Type := string * option Z * bool * string.

Definition rec_url (r : LinkRecord) : string := r.1.1.1.
Definition rec_status (r : LinkRecord) : option Z := r.1.1.2.
Definition rec_ok (r : LinkRecord) : bool := r.1.2.
Definition rec_note (r : LinkRecord) : string := r.2.

(** The two objects [crawl] mutates, and the log of the requests sent
    (the log is not in the source; it records what the two [requests]
    calls were asked). *)
Record state : Type := mkState {
  visited : gset string;
  results : list LinkRecord;
  sent : list request
}.

Definition clock (st : state) : nat := length (sent st).

Definition init_state : state :=
  {| visited := ∅; results := []; sent := [] |}.

(** URLs requested as pages, and URLs probed, in order. *)
Definition page_fetches (l : list request) : list string :=
  omap (λ q, match q with GET u => Some u | HEAD _ => None end) l.

Definition link_checks (l : list request) : list string :=
  omap (λ q, match q with HEAD u => Some u | GET _ => None end) l.

(** [visited.add(url)] *)
Definition visited_add (url : string) (st : state) : state :=
  {| visited := {[url]} ∪ visited st; results := results st; sent := sent st |}.

(** [results.append(r)] *)
Definition results_append (r : LinkRecord) (st : state) : state :=
  {| visited := visited st; results := results st ++ [r]; sent := sent st |}.

Definition log (q : request) (st : state) : state :=
  {| visited := visited st; results := results st; sent := sent st ++ [q] |}.

(** ** The program *)

(** A [for] loop whose body can raise: the first exception ends it. *)
Fixpoint for_each {A S : Type} (body : S → A → outcome S) (l : list A) (s : S) :
    outcome S :=
  match l with
  | [] => Returned s
  | x :: l' =>
      match body s x with
      | Returned s' => for_each body l' s'
      | Raised e => Raised e
      end
  end.

Section Crawler.

(** [urlparse(url).netloc] *)
Variable netloc : string → outcome string.
(** [urljoin(base_url, link)] *)
Variable urljoin : string → string → outcome string.
(** [BeautifulSoup(text, "html.parser")] *)
Variable BeautifulSoup : string → outcome Tag.
(** The order in which a [for] loop walks a set. *)
Variable set_iter : gset string → list string.
Hypothesis set_iter_perm : ∀ s, set_iter s ≡ₚ elements s.

Variable net : network.

Definition is_internal (url base_netloc : string) : outcome bool :=
  match netloc url with
  | Returned parsed_netloc =>
      Returned (bool_decide (parsed_netloc = "")
                || bool_decide (parsed_netloc = base_netloc))
  | Raised e => Raised e
  end.

(** [check_link] at the moment [t]. *)
Definition check_link (t : nat) (url : string) : outcome (option Z * bool) :=
  match requests_head net t url with
  | Returned response =>
      Returned (Some (status_code response),
                bool_decide (status_code response < 400))
  | Raised _ => Returned (None, false)
  end.

Definition tags_attrs : list (string * string) :=
  [("a", "href"); ("img", "src"); ("script", "src"); ("link", "href")].

(** The body of the inner loop of [extract_links]. *)
Definition add_link (base_url attr : string) (links : gset string)
    (element : Tag) : outcome (gset string) :=
  match get element attr with
  | Some link =>
      if bool_decide (link ≠ "") then
        match urljoin base_url link with
        | Returned full_url => Returned ({[full_url]} ∪ links)
        | Raised e => Raised e
        end
      else Returned links
  | None => Returned links
  end.

Definition extract_links (soup : Tag) (base_url : string) :
    outcome (gset string) :=
  for_each (λ links '(tag, attr),
              for_each (add_link base_url attr) (find_all soup tag) links)
           tags_attrs ∅.

(** Lines 51 and 52 of [crawl]: the page is parsed, its links are
    extracted, and the set is handed to the loop. *)
Definition page_links (page : Response) (url : string) :
    outcome (list string) :=
  match BeautifulSoup (text page) with
  | Returned soup =>
      match extract_links soup url with
      | Returned links => Returned (set_iter links)
      | Raised e => Raised e
      end
  | Raised e => Raised e
  end.

(** The [try] block of [crawl]: the request, then [raise_for_status]. *)
Definition fetch_page (t : nat) (url : string) : outcome Response :=
  match requests_get net t url with
  | Returned page =>
      match raise_for_status page with
      | Returned _ => Returned page
      | Raised e => Raised e
      end
  | Raised e => Raised e
  end.

(** The [for link in links] loop of [crawl]; [recurse link] stands for
    the recursive call on [link] at the next depth. *)
Definition crawl_links (base_netloc : string)
    (recurse : string → state → option (outcome unit * state)) :
    list string → state → option (outcome unit * state) :=
  fix loop (links : list string) (st : state) :=
    match links with
    | [] => Some (Returned tt, st)
    | link :: rest =>
        if bool_decide (link ∈ visited st) then loop rest st
        else
          let st1 := log (HEAD link) st in
          match check_link (clock st) link with
          | Raised e => Some (Raised e, st1)
          | Returned (status_code, ok) =>
              let st2 := results_append (link, status_code, ok, "") st1 in
              match is_internal link base_netloc with
              | Raised e => Some (Raised e, st2)
              | Returned true =>
                  match recurse link st2 with
                  | Some (Returned _, st3) => loop rest st3
                  | Some (Raised e, st3) => Some (Raised e, st3)
                  | None => None
                  end
              | Returned false => loop rest st2
              end
          end
    end.

(** [crawl]. The fuel bounds the nesting of page fetches; [None] means
    it ran out. *)
Fixpoint crawl (fuel : nat) (url base_netloc : string) (depth max_depth : Z)
    (st : state) : option (outcome unit * state) :=
  if bool_decide (depth > max_depth) || bool_decide (url ∈ visited st)
  then Some (Returned tt, st)
  else
    match fuel with
    | O => None
    | S fuel' =>
        let st1 := log (GET url) (visited_add url st) in
        match fetch_page (clock st) url with
        | Raised _ =>
            Some (Returned tt,
                  results_append (url, None, false, "PAGE ERROR") st1)
        | Returned page =>
            match page_links page url with
            | Raised e => Some (Raised e, st1)
            | Returned links =>
                crawl_links base_netloc
                  (λ link, crawl fuel' link base_netloc (depth + 1) max_depth)
                  links st1
            end
        end
    end.

(** Fuel that always suffices. *)
Definition enough_fuel (depth max_depth : Z) : nat :=
  Z.to_nat (max_depth - depth + 1).

(** What the statements below are written with: the pair [check_link]
    hands back at the moment [t], the links of a list that a visited
    set lets through, and the records of probing a list of links one
    after the other from the moment [t0] on. *)
Definition check_result (t : nat) (url : string) : option Z * bool :=
  match requests_head net t url with
  | Returned response =>
      (Some (status_code response), bool_decide (status_code response < 400))
  | Raised _ => (None, false)
  end.

Definition unvisited (v : gset string) (links : list string) : list string :=
  filter (λ link, link ∉ v) links.

Definition check_records (t0 : nat) (links : list string) : list LinkRecord :=
  imap (λ i link, let '(status_code, ok) := check_result (t0 + i) link in
                  (link, status_code, ok, "")) links.

(** The state after the loop has probed [link] and recorded the answer. *)
Definition probe (link : string) (st : state) : state :=
  results_append (link, (check_result (clock st) link).1,
                  (check_result (clock st) link).2, "")
    (log (HEAD link) st).

(** [link] is one of the links of a page that the log [l] shows was
    requested, and that was served without an error. *)
Definition found_on (l : list request) (link : string) : Prop :=
  ∃ t page_url page links,
    l !! t = Some (GET page_url) ∧
    fetch_page t page_url = Returned page ∧
    page_links page page_url = Returned links ∧
    link ∈ links.

(** The exception [e] is one that a call of the three libraries
    raises. *)
Definition raised_by_library (e : exn) : Prop :=
  (∃ url, netloc url = Raised e) ∨
  (∃ base_url link, urljoin base_url link = Raised e) ∨
  (∃ markup, BeautifulSoup markup = Raised e).

End Crawler.

(** The two shapes of a record: the one [crawl] appends for a page it
    could not fetch, and the one it appends for a probed link. *)
Definition page_error_record (r : LinkRecord) : Prop :=
  rec_status r = None ∧ rec_ok r = false ∧ rec_note r = "PAGE ERROR".

Definition check_record (r : LinkRecord) : Prop :=
  rec_note r = "" ∧
  match rec_status r with
  | Some code => rec_ok r = bool_decide (code < 400)
  | None => rec_ok r = false
  end.

(** ** The aggregation that follows the crawl *)

(** A Python [dict] keeps its keys in insertion order; assigning to a key
    already present replaces the value where the key stands. *)
Fixpoint dict_set {V : Type} (k : string) (v : V) (d : list (string * V)) :
    list (string * V) :=
  match d with
  | [] => [(k, v)]
  | (k', v') :: d' =>
      if bool_decide (k' = k) then (k', v) :: d'
      else (k', v') :: dict_set k v d'
  end.

Fixpoint dict_get {V : Type} (k : string) (d : list (string * V)) : option V :=
  match d with
  | [] => None
  | (k', v') :: d' => if bool_decide (k' = k) then Some v' else dict_get k d'
  end.

Definition dict_keys {V : Type} (d : list (string * V)) : list string := d.*1.

(** The loop "Remove duplicates". *)
Definition unique_results (results : list LinkRecord) :
    list (string * (option Z * bool * string)) :=
  foldl (λ d '(url, status_code, ok, note), dict_set url (status_code, ok, note) d)
        [] results.

(** [[(url, *unique_results[url]) for url in unique_results]] *)
Definition dedup_results (results : list LinkRecord) : list LinkRecord :=
  let d := unique_results results in
  omap (λ url, (λ '(status_code, ok, note), (url, status_code, ok, note))
                 <$> dict_get url d)
       (dict_keys d).

(** The three numbers of the summary. *)
Definition total (results : list LinkRecord) : Z := Z.of_nat (length results).

Definition broken (results : list LinkRecord) : Z :=
  foldr (λ '(_, _, ok, _) acc, if negb ok then 1 + acc else acc) 0 results.

Definition working (results : list LinkRecord) : Z :=
  total results - broken results.

(** The script from "Remove duplicates" to the summary. *)
Definition aggregate (results : list LinkRecord) :
    list LinkRecord * Z * Z * Z :=
  let results := dedup_results results in
  (results, total results, working results, broken results).

(** What the aggregation is compared with: the last record of a
    URL, and the URLs in the order they first occur. *)
Fixpoint last_record (url : string) (results : list LinkRecord) :
    option LinkRecord :=
  match results with
  | [] => None
  | r :: rest =>
      match last_record url rest with
      | Some r' => Some r'
      | None => if bool_decide (rec_url r = url) then Some r else None
      end
  end.

Fixpoint first_occurrences (urls : list string) : list string :=
  match urls with
  | [] => []
  | u :: rest => u :: filter (λ x, x ≠ u) (first_occurrences rest)
  end.

(** ** A small web to run the program on *)

Module Web.

(** The network location of [scheme://netloc/path]. *)
Fixpoint after_scheme (s : string) : option string :=
  match s with
  | String ":"%char (String "/"%char (String "/"%char r)) => Some r
  | String _ s' => after_scheme s'
  | EmptyString => None
  end.

Fixpoint until_slash (s : string) : string :=
  match s with
  | String c s' => if Ascii.eqb c "/"%char then "" else String c (until_slash s')
  | EmptyString => ""
  end.

Fixpoint has_char (c : ascii) (s : string) : bool :=
  match s with
  | String c' s' => Ascii.eqb c' c || has_char c s'
  | EmptyString => false
  end.

(** [urlparse] raises a [ValueError] when a bracket of the network
    location has no partner. *)
Definition netloc (url : string) : outcome string :=
  let parsed_netloc :=
    match after_scheme url with
    | Some r => until_slash r
    | None => ""
    end in
  if xorb (has_char "["%char parsed_netloc) (has_char "]"%char parsed_netloc)
  then Raised ValueError
  else Returned parsed_netloc.

(** Every reference of these pages is already absolute; [urljoin]
    parses it, and raises what the parsing raises. *)
Definition urljoin (base_url link : string) : outcome string :=
  if bool_decide (link = "") then Returned base_url
  else
    match netloc link with
    | Returned _ => Returned link
    | Raised e => Raised e
    end.

(** A page is written as the list of its references, one per line,
    and every reference is the [href] of an anchor. *)
Fixpoint lines (acc s : string) : list string :=
  match s with
  | String c s' =>
      if Ascii.eqb c "010"%char then acc :: lines "" s'
      else lines (acc +:+ String c "") s'
  | EmptyString => [acc]
  end.

Definition anchor (href : string) : Tag :=
  mkTag "a" {["href" := href]} [].

Definition parse (text : string) : outcome Tag :=
  Returned (mkTag "[document]" ∅ (anchor <$> lines "" text)).

Definition markup (hrefs : list string) : string :=
  String.concat (String "010"%char "") hrefs.

Definition page (hrefs : list string) : outcome Response :=
  Returned (mkResponse 200 (markup hrefs)).

Definition seed : string := "https://example.com".
Definition about : string := "https://example.com/about".
Definition ext : string := "https://external.test/x".
(** A reference that [urljoin] rejects. *)
Definition bad : string := "http://[bad".

(** The example of the specification: the seed page links to an
    internal page and to an external one; the internal page links back
    to the seed and to the same external URL. *)
Definition example_net : network :=
  {| requests_head := λ _ url,
       if bool_decide (url = about) then Returned (mkResponse 200 "")
       else if bool_decide (url = seed) then Returned (mkResponse 200 "")
       else Raised ConnectionError;
     requests_get := λ _ url,
       if bool_decide (url = seed) then page [about; ext]
       else if bool_decide (url = about) then page [seed; ext]
       else Raised ConnectionError |}.

(** A seed that cannot be fetched. *)
Definition dead_net : network :=
  {| requests_head := λ _ _, Raised Timeout;
     requests_get := λ _ url,
       if bool_decide (url = seed) then Returned (mkResponse 404 "")
       else Raised Timeout |}.

(** A seed answered with the status 600 and an empty body. *)
Definition odd_net : network :=
  {| requests_head := λ _ _, Raised Timeout;
     requests_get := λ _ url,
       if bool_decide (url = seed) then Returned (mkResponse 600 "")
       else Raised Timeout |}.

(** A seed page with a good link and a malformed reference. *)
Definition bad_net : network :=
  {| requests_head := λ _ _, Returned (mkResponse 200 "");
     requests_get := λ _ url,
       if bool_decide (url = seed) then page [about; bad]
       else Raised ConnectionError |}.

(** A malformed reference one page below the seed. *)
Definition deep_bad_net : network :=
  {| requests_head := λ _ _, Returned (mkResponse 200 "");
     requests_get := λ _ url,
       if bool_decide (url = seed) then page [about]
       else if bool_decide (url = about) then page [ext; bad]
       else Raised ConnectionError |}.

(** An internal page that answers no probe and can be fetched. *)
Definition deaf_net : network :=
  {| requests_head := λ _ _, Raised Timeout;
     requests_get := λ _ url,
       if bool_decide (url = seed) then page [about]
       else if bool_decide (url = about) then page [ext]
       else Raised ConnectionError |}.

Definition run (net : network) (max_depth : Z) :
    option (outcome unit * state) :=
  crawl netloc urljoin parse elements net (enough_fuel 0 max_depth)
    seed "example.com" 0 max_depth init_state.

End Web.

(** ** The collaborators of the interface

    [crawl] takes three optional collaborators: a progress bar, the
    two-cell list [progress_state = [current, total]] and a live log.
    The objects come from the interface library; they are modelled by
    what [crawl] tells them. *)

(** The double quote, which the messages contain. *)
Definition dq : string := String "034"%char "".

(** [f"{status_code}" if status_code else "ERR"]: [None] and [0] are
    both false in a condition. *)
Definition status_str (status_code : option Z) : string :=
  match status_code with
  | Some code => if bool_decide (code ≠ 0) then pretty code else "ERR"
  | None => "ERR"
  end.

(** The line [crawl] writes to the live log for a page it could not
    fetch. *)
Definition page_error_message (url : string) : string :=
  "<span style=" +:+ dq +:+ "color:red;" +:+ dq +:+ ">[BROKEN]</span> "
  +:+ url +:+ " (PAGE ERROR)".

(** The line it writes for a probed link. *)
Definition check_message (link : string) (status_code : option Z) (ok : bool) :
    string :=
  let color := if ok then "green" else "red" in
  let label := if ok then "OK" else "BROKEN" in
  let status_str := status_str status_code in
  "<span style=" +:+ dq +:+ "color:" +:+ color +:+ ";" +:+ dq +:+ ">["
  +:+ label +:+ "]</span> <a href=" +:+ dq +:+ link +:+ dq +:+ ">" +:+ link
  +:+ "</a> (Status: " +:+ status_str +:+ ")".

(** The cells of [progress_state] when the list is passed, the calls
    [progress_bar.progress(min(current / total, 1.0))], each recorded by
    the two integers its argument is computed from, and the calls
    [live_log.markdown(message)]. *)
Record ui : Type := mkUi {
  progress_state : option (Z * Z);
  progress_calls : list (Z * Z);
  markdown_calls : list string
}.

(** What a call of [crawl] with collaborators can end on: an exception
    of a library, or the division by a [total] that is zero. *)
Inductive failure : Type :=
  | Exception (e : exn)
  | ZeroDivisionError.

Inductive ended (A : Type) : Type :=
  | Done (a : A)
  | Failed (f : failure).
Arguments Done {A} a.
Arguments Failed {A} f.

(** The end of a call without collaborators, as the end of the same
    call with them. *)
Definition as_ended (r : outcome unit) : ended unit :=
  match r with
  | Returned _ => Done tt
  | Raised e => Failed (Exception e)
  end.

(** [if live_log is not None: live_log.markdown(message)] *)
Definition notify (live_log : bool) (message : string) (u : ui) : ui :=
  if live_log then
    {| progress_state := progress_state u;
       progress_calls := progress_calls u;
       markdown_calls := markdown_calls u ++ [message] |}
  else u.

(** The progress update of the loop: when the bar and the list are both
    passed, [current] goes up by one, then the quotient is computed and
    handed to the bar. *)
Definition progress_update (progress_bar : bool) (u : ui) : ended unit * ui :=
  if progress_bar then
    match progress_state u with
    | Some (current, total) =>
        let current := current + 1 in
        if bool_decide (total = 0) then
          (Failed ZeroDivisionError,
           {| progress_state := Some (current, total);
              progress_calls := progress_calls u;
              markdown_calls := markdown_calls u |})
        else
          (Done tt,
           {| progress_state := Some (current, total);
              progress_calls := progress_calls u ++ [(current, total)];
              markdown_calls := markdown_calls u |})
    | None => (Done tt, u)
    end
  else (Done tt, u).

Section CrawlerInterface.

Variable netloc : string → outcome string.
Variable urljoin : string → string → outcome string.
Variable BeautifulSoup : string → outcome Tag.
Variable set_iter : gset string → list string.
Variable net : network.

(** Whether [progress_bar] and [live_log] are passed. *)
Variables (progress_bar live_log : bool).

(** The loop of [crawl], with the collaborators. *)
Definition crawl_links_ui (base_netloc : string)
    (recurse : string → state → ui → option (ended unit * state * ui)) :
    list string → state → ui → option (ended unit * state * ui) :=
  fix loop (links : list string) (st : state) (u : ui) :=
    match links with
    | [] => Some (Done tt, st, u)
    | link :: rest =>
        if bool_decide (link ∈ visited st) then loop rest st u
        else
          let st1 := log (HEAD link) st in
          match check_link net (clock st) link with
          | Raised e => Some (Failed (Exception e), st1, u)
          | Returned (status_code, ok) =>
              let st2 := results_append (link, status_code, ok, "") st1 in
              let u1 := notify live_log (check_message link status_code ok) u in
              match progress_update progress_bar u1 with
              | (Failed f, u2) => Some (Failed f, st2, u2)
              | (Done _, u2) =>
                  match is_internal netloc link base_netloc with
                  | Raised e => Some (Failed (Exception e), st2, u2)
                  | Returned true =>
                      match recurse link st2 u2 with
                      | Some (Done _, st3, u3) => loop rest st3 u3
                      | Some (Failed f, st3, u3) => Some (Failed f, st3, u3)
                      | None => None
                      end
                  | Returned false => loop rest st2 u2
                  end
              end
          end
    end.

(** [crawl], with the collaborators. *)
Fixpoint crawl_ui (fuel : nat) (url base_netloc : string) (depth max_depth : Z)
    (st : state) (u : ui) : option (ended unit * state * ui) :=
  if bool_decide (depth > max_depth) || bool_decide (url ∈ visited st)
  then Some (Done tt, st, u)
  else
    match fuel with
    | O => None
    | S fuel' =>
        let st1 := log (GET url) (visited_add url st) in
        match fetch_page net (clock st) url with
        | Raised _ =>
            Some (Done tt,
                  results_append (url, None, false, "PAGE ERROR") st1,
                  notify live_log (page_error_message url) u)
        | Returned page =>
            match page_links urljoin BeautifulSoup set_iter page url with
            | Raised e => Some (Failed (Exception e), st1, u)
            | Returned links =>
                crawl_links_ui base_netloc
                  (λ link, crawl_ui fuel' link base_netloc (depth + 1) max_depth)
                  links st1 u
            end
        end
    end.

(** What the collaborators are told for one record, when no division
    fails: a line of the live log, and for a probed link one step of
    the progress bar. *)
Definition replay (u : ui) (r : LinkRecord) : ui :=
  if bool_decide (rec_note r = "PAGE ERROR") then
    notify live_log (page_error_message (rec_url r)) u
  else
    (progress_update progress_bar
       (notify live_log
          (check_message (rec_url r) (rec_status r) (rec_ok r)) u)).2.

(** How a run with the collaborators stands to the run without: both
    are out of fuel, or both end the same way, with the same state, and
    the collaborators were told what the new records say. *)
Definition follows (without : option (outcome unit * state))
    (with_ui : option (ended unit * state * ui)) (st : state) (u : ui) : Prop :=
  (without = None ∧ with_ui = None) ∨
  ∃ r st' new, without = Some (r, st') ∧
               results st' = results st ++ new ∧
               with_ui = Some (as_ended r, st', foldl replay u new).

End CrawlerInterface.

(** ** The report *)

(** [s.replace(old, new)] for patterns of one character. *)
Fixpoint replace_char (old new : ascii) (s : string) : string :=
  match s with
  | EmptyString => EmptyString
  | String c s' =>
      String (if Ascii.eqb c old then new else c) (replace_char old new s')
  end.

(** One item of the list of the report. *)
Definition report_item (r : LinkRecord) : string :=
  let '(url, status_code, ok, note) := r in
  let color := if ok then "green" else "red" in
  let label := if ok then "OK" else "BROKEN" in
  let status_str := status_str status_code in
  "<li><span style=" +:+ dq +:+ "color:" +:+ color +:+ ";font-weight:bold;"
  +:+ dq +:+ ">[" +:+ label +:+ "]</span> <a href=" +:+ dq +:+ url +:+ dq
  +:+ ">" +:+ url +:+ "</a> (Status: " +:+ status_str +:+ ") " +:+ note
  +:+ "</li>".

(** [generate_html_report]; [timestamp] is
    [datetime.now().strftime("%Y%m%d_%H%M%S")]. *)
Definition generate_html_report (timestamp base_url base_netloc : string)
    (results : list LinkRecord) : string * string :=
  let total := total results in
  let broken := broken results in
  let working := total - broken in
  let domain := replace_char "."%char "_"%char base_netloc in
  let filename :=
    "broken_link_report_" +:+ domain +:+ "_" +:+ timestamp +:+ ".html" in
  let html_content :=
    "<html><head><title>Broken Link Report</title></head><body>" in
  let html_content :=
    html_content +:+ ("<h2>Broken Link Report for " +:+ base_url +:+ "</h2>") in
  let html_content :=
    html_content +:+
    ("<p><b>Total links checked:</b> " +:+ pretty total +:+ "<br>") in
  let html_content :=
    html_content +:+ ("<b>Working links:</b> " +:+ pretty working +:+ "<br>") in
  let html_content :=
    html_content +:+ ("<b>Broken links:</b> " +:+ pretty broken +:+ "</p><ul>") in
  let html_content :=
    foldl (λ html_content r, html_content +:+ report_item r)
          html_content results in
  let html_content := html_content +:+ "</ul></body></html>" in
  (filename, html_content).

(** The number of characters [c] in [s]. *)
Fixpoint count_char (c : ascii) (s : string) : nat :=
  match s with
  | EmptyString => 0
  | String c' s' => (if Ascii.eqb c' c then 1 else 0) + count_char c s'
  end.

(** ** The script *)

Section Script.

Variable netloc : string → outcome string.
Variable urljoin : string → string → outcome string.
Variable BeautifulSoup : string → outcome Tag.
Variable set_iter : gset string → list string.
Variable net : network.

(** The first request of the script, made to size the progress bar:
    the number of links of the seed page, or 1 when there is none or
    when anything fails. *)
Definition estimate (base_url : string) : Z :=
  match fetch_page net 0 base_url with
  | Returned page =>
      match BeautifulSoup (text page) with
      | Returned soup =>
          match extract_links urljoin soup base_url with
          | Returned initial_links => Z.max (Z.of_nat (size initial_links)) 1
          | Raised _ => 1
          end
      | Raised _ => 1
      end
  | Raised _ => 1
  end.

(** The state [crawl] starts from in the script: nothing visited, no
    record, one request sent. *)
Definition start_state (base_url : string) : state :=
  {| visited := ∅; results := []; sent := [GET base_url] |}.

Definition start_ui (base_url : string) : ui :=
  {| progress_state := Some (0, estimate base_url);
     progress_calls := [];
     markdown_calls := [] |}.

(** What the script shows once the crawl is over: the list, the three
    numbers of the summary, and the report with its file name. *)
Definition outputs : Type := list LinkRecord * Z * Z * Z * (string * string).

(** Before the script has made its collaborators. *)
Definition no_ui : ui :=
  {| progress_state := None; progress_calls := []; markdown_calls := [] |}.

(** The script from "Start Checking" on. The seed URL is parsed first,
    outside any [try]. *)
Definition main (fuel : nat) (timestamp base_url : string) (depth : Z) :
    option (ended outputs * state * ui) :=
  match netloc base_url with
  | Raised e => Some (Failed (Exception e), init_state, no_ui)
  | Returned base_netloc =>
      match crawl_ui netloc urljoin BeautifulSoup set_iter net true true fuel
              base_url base_netloc 0 depth
              (start_state base_url) (start_ui base_url) with
      | Some (Done _, st, u) =>
          let results := dedup_results (results st) in
          let total := total results in
          let broken := broken results in
          let working := total - broken in
          Some (Done (results, total, working, broken,
                      generate_html_report timestamp base_url base_netloc
                        results),
                st, u)
      | Some (Failed f, st, u) => Some (Failed f, st, u)
      | None => None
      end
  end.

End Script.

(** The division of the progress update cannot fail: the bar or the
    list is missing, or the total is not zero. *)
Definition safe (progress_bar : bool) (u : ui) : Prop :=
  progress_bar = true → ∀ current total,
    progress_state u = Some (current, total) → total ≠ 0.

(** ** The example web, crawled *)

Module Crawled.

(** The seed page of [Web.example_net]. *)
Definition seed_page : Response :=
  mkResponse 200 (Web.markup [Web.about; Web.ext]).

(** The seed page of [Web.bad_net], and how the crawl leaves the state
    when it ends on the malformed reference of that page. *)
Definition bad_page : Response :=
  mkResponse 200 (Web.markup [Web.about; Web.bad]).

Definition after_bad_page : state :=
  {| visited := {[Web.seed]}; results := []; sent := [GET Web.seed] |}.

(** The page below the seed of [Web.deep_bad_net]. *)
Definition deep_bad_page : Response :=
  mkResponse 200 (Web.markup [Web.ext; Web.bad]).

(** How the crawl of depth 1 of [Web.deep_bad_net] leaves the state
    when it ends on the malformed reference of the page below the
    seed. *)
Definition after_deep_bad_page : state :=
  {| visited := list_to_set [Web.seed; Web.about];
     results := [(Web.about, Some 200, true, "")];
     sent := [GET Web.seed; HEAD Web.about; GET Web.about] |}.

(** How the crawl of depth 0 of [Web.odd_net] leaves the state. *)
Definition after_odd_page : state :=
  {| visited := {[Web.seed]}; results := []; sent := [GET Web.seed] |}.

(** Where the crawl of depth 1 of [Web.deaf_net] ends. *)
Definition deaf_depth_1 : state :=
  {| visited := list_to_set [Web.seed; Web.about];
     results := [(Web.about, None, false, ""); (Web.ext, None, false, "")];
     sent := [GET Web.seed; HEAD Web.about; GET Web.about; HEAD Web.ext] |}.

(** Where the crawl of depth 1 of [Web.example_net] ends. *)
Definition depth_1 : state :=
  {| visited := list_to_set [Web.seed; Web.about];
     results := [(Web.about, Some 200, true, "");
                 (Web.ext, None, false, "");
                 (Web.ext, None, false, "")];
     sent := [GET Web.seed; HEAD Web.about; GET Web.about;
              HEAD Web.ext; HEAD Web.ext] |}.

(** Collaborators before and after that crawl, with a total of 2. *)
Definition ui_before : ui :=
  {| progress_state := Some (0, 2); progress_calls := []; markdown_calls := [] |}.

Definition ui_after : ui :=
  {| progress_state := Some (3, 2);
     progress_calls := [(1, 2); (2, 2); (3, 2)];
     markdown_calls := [check_message Web.about (Some 200) true;
                        check_message Web.ext None false;
                        check_message Web.ext None false] |}.

(** Collaborators with a total of zero. *)
Definition ui_zero : ui :=
  {| progress_state := Some (0, 0); progress_calls := []; markdown_calls := [] |}.

(** The parse tree of [bad_page]. *)
Definition bad_soup : Tag :=
  mkTag "[document]" ∅ [Web.anchor Web.about; Web.anchor Web.bad].

(** A page without any link. *)
Definition plain_soup : Tag :=
  mkTag "[document]" ∅ [mkTag "p" ∅ [mkTag "b" ∅ []]].

End Crawled.

(** * Properties *)

(** ** The log and the state updates *)

Lemma page_fetches_app l1 l2 :
  page_fetches (l1 ++ l2) = page_fetches l1 ++ page_fetches l2.
Proof. apply omap_app. Qed.

Lemma link_checks_app l1 l2 :
  link_checks (l1 ++ l2) = link_checks l1 ++ link_checks l2.
Proof. apply omap_app. Qed.

Lemma page_fetches_get l u : page_fetches (l ++ [GET u]) = page_fetches l ++ [u].
Proof. by rewrite page_fetches_app. Qed.

Lemma page_fetches_head l u : page_fetches (l ++ [HEAD u]) = page_fetches l.
Proof. by rewrite page_fetches_app, app_nil_r. Qed.

Lemma link_checks_get l u : link_checks (l ++ [GET u]) = link_checks l.
Proof. by rewrite link_checks_app, app_nil_r. Qed.

Lemma link_checks_head l u : link_checks (l ++ [HEAD u]) = link_checks l ++ [u].
Proof. by rewrite link_checks_app. Qed.

Lemma page_fetches_heads l : page_fetches (HEAD <$> l) = [].
Proof. by induction l. Qed.

Lemma link_checks_heads l : link_checks (HEAD <$> l) = l.
Proof. induction l as [|u l IH]; [done|]. simpl. by rewrite <- IH at 2. Qed.

Lemma raise_for_status_raises (r : Response) :
  (∃ e, raise_for_status r = Raised e) ↔ 400 ≤ status_code r < 600.
Proof.
  unfold raise_for_status. case_bool_decide; split; try done.
  - by eexists.
  - by intros [e ?].
Qed.

Section CrawlerFacts.

Variable netloc : string → outcome string.
Variable urljoin : string → string → outcome string.
Variable BeautifulSoup : string → outcome Tag.
Variable set_iter : gset string → list string.
Variable net : network.

Abbreviation is_internal := (is_internal netloc).
Abbreviation check_link := (check_link net).
Abbreviation check_result := (check_result net).
Abbreviation check_records := (check_records net).
Abbreviation fetch_page := (fetch_page net).
Abbreviation extract_links := (extract_links urljoin).
Abbreviation page_links := (page_links urljoin BeautifulSoup set_iter).
Abbreviation crawl_links := (crawl_links netloc net).
Abbreviation crawl := (crawl netloc urljoin BeautifulSoup set_iter net).
Abbreviation raised_by_library :=
  (raised_by_library netloc urljoin BeautifulSoup).

Lemma check_link_returns t url :
  check_link t url = Returned (check_result t url).
Proof.
  unfold check_link, check_result. by destruct (requests_head net t url).
Qed.

(** *** What the libraries raise *)

Lemma is_internal_raises url base_netloc e :
  is_internal url base_netloc = Raised e ↔ netloc url = Raised e.
Proof.
  unfold is_internal. destruct (netloc url); split; congruence.
Qed.

Lemma add_link_raises base_url attr links element e :
  add_link urljoin base_url attr links element = Raised e →
  ∃ link, urljoin base_url link = Raised e.
Proof.
  unfold add_link. destruct (get element attr) as [link|]; [|done].
  case_bool_decide; [|done].
  destruct (urljoin base_url link) eqn:Hj; [done|].
  intros [= ->]. by exists link.
Qed.

Lemma for_each_add_link_raises base_url attr elements : ∀ links e,
  for_each (add_link urljoin base_url attr) elements links = Raised e →
  ∃ link, urljoin base_url link = Raised e.
Proof.
  induction elements as [|x elements IH]; intros links e; simpl; [done|].
  destruct (add_link urljoin base_url attr links x) eqn:Ha.
  - apply IH.
  - intros [= ->]. by eapply add_link_raises.
Qed.

Lemma extract_links_raises soup base_url e :
  extract_links soup base_url = Raised e →
  ∃ link, urljoin base_url link = Raised e.
Proof.
  unfold extract_links. generalize (∅ : gset string).
  induction tags_attrs as [|[tag attr] pairs IH]; intros links; simpl; [done|].
  destruct (for_each _ (find_all soup tag) links) eqn:Hf.
  - apply IH.
  - intros [= ->]. by eapply for_each_add_link_raises.
Qed.

Lemma page_links_raises page url e :
  page_links page url = Raised e → raised_by_library e.
Proof.
  unfold page_links. destruct (BeautifulSoup (text page)) as [soup|e'] eqn:Hb.
  - destruct (extract_links soup url) as [links|e'] eqn:He; [done|].
    intros [= ->]. apply extract_links_raises in He as [link ?].
    right. left. by exists url, link.
  - intros [= ->]. right. right. by exists (text page).
Qed.

(** *** Unfolding [crawl] *)

Lemma crawl_stop fuel url base_netloc depth max_depth st :
  depth > max_depth ∨ url ∈ visited st →
  crawl fuel url base_netloc depth max_depth st = Some (Returned tt, st).
Proof.
  intros H. destruct fuel; simpl;
    rewrite (orb_true_intro (bool_decide _) (bool_decide _)); try done;
    destruct H; [left|right|left|right]; by apply bool_decide_eq_true.
Qed.

Lemma crawl_go fuel url base_netloc depth max_depth st :
  depth ≤ max_depth → url ∉ visited st →
  crawl (S fuel) url base_netloc depth max_depth st =
    let st1 := log (GET url) (visited_add url st) in
    match fetch_page (clock st) url with
    | Raised _ =>
        Some (Returned tt, results_append (url, None, false, "PAGE ERROR") st1)
    | Returned page =>
        match page_links page url with
        | Raised e => Some (Raised e, st1)
        | Returned links =>
            crawl_links base_netloc
              (λ link, crawl fuel link base_netloc (depth + 1) max_depth)
              links st1
        end
    end.
Proof.
  intros Hd Hv. simpl.
  rewrite (bool_decide_eq_false_2 (depth > max_depth)) by lia.
  by rewrite (bool_decide_eq_false_2 (url ∈ visited st)).
Qed.

Lemma crawl_out_of_fuel url base_netloc depth max_depth st :
  depth ≤ max_depth → url ∉ visited st →
  crawl 0 url base_netloc depth max_depth st = None.
Proof.
  intros Hd Hv. simpl.
  rewrite (bool_decide_eq_false_2 (depth > max_depth)) by lia.
  by rewrite (bool_decide_eq_false_2 (url ∈ visited st)).
Qed.

Lemma crawl_links_nil base_netloc recurse st :
  crawl_links base_netloc recurse [] st = Some (Returned tt, st).
Proof. done. Qed.

Lemma crawl_links_skip base_netloc recurse link rest st :
  link ∈ visited st →
  crawl_links base_netloc recurse (link :: rest) st =
    crawl_links base_netloc recurse rest st.
Proof. intros H. simpl. by rewrite bool_decide_eq_true_2. Qed.

Lemma crawl_links_check base_netloc recurse link rest st :
  link ∉ visited st →
  crawl_links base_netloc recurse (link :: rest) st =
    let '(status_code, ok) := check_result (clock st) link in
    let st2 := results_append (link, status_code, ok, "")
                 (log (HEAD link) st) in
    match is_internal link base_netloc with
    | Raised e => Some (Raised e, st2)
    | Returned true =>
        match recurse link st2 with
        | Some (Returned _, st3) => crawl_links base_netloc recurse rest st3
        | Some (Raised e, st3) => Some (Raised e, st3)
        | None => None
        end
    | Returned false => crawl_links base_netloc recurse rest st2
    end.
Proof.
  intros H. simpl. rewrite bool_decide_eq_false_2 by done.
  rewrite check_link_returns. by destruct (check_result _ _).
Qed.

(** *** Invariants of a crawl

    A property of the state that survives the three things [crawl]
    does (mark and request a page, record a page error, probe and
    record a link) survives every call, however the call ends; and a
    call that ends on an exception ends on one of a library. [Q] is
    what is known of the URLs [crawl] is called on. *)
Section Invariant.

Variables (base_netloc : string) (max_depth : Z).
Variable Q : string → Prop.
Variable I : state → Prop.

Hypothesis Q_internal :
  ∀ link, is_internal link base_netloc = Returned true → Q link.
Hypothesis I_visit : ∀ st url,
  I st → Q url → url ∉ visited st →
  I (log (GET url) (visited_add url st)).
Hypothesis I_page_error : ∀ st url,
  I st → Q url → url ∉ visited st →
  I (results_append (url, None, false, "PAGE ERROR")
       (log (GET url) (visited_add url st))).
Hypothesis I_check : ∀ st link status_code ok,
  I st → link ∉ visited st →
  I (results_append (link, status_code, ok, "") (log (HEAD link) st)).

Lemma crawl_links_preserves recurse :
  (∀ link st r st', Q link → I st →
     recurse link st = Some (r, st') →
     I st' ∧ ∀ e, r = Raised e → raised_by_library e) →
  ∀ links st r st', I st →
    crawl_links base_netloc recurse links st = Some (r, st') →
    I st' ∧ ∀ e, r = Raised e → raised_by_library e.
Proof.
  intros Hrec links. induction links as [|link rest IH]; intros st r st' HI Hrun.
  - rewrite crawl_links_nil in Hrun. by simplify_eq.
  - destruct (decide (link ∈ visited st)) as [Hv|Hv].
    + rewrite crawl_links_skip in Hrun by done. by eapply IH.
    + rewrite crawl_links_check in Hrun by done.
      destruct (check_result (clock st) link) as [sc ok]. cbv zeta in Hrun.
      pose proof (I_check st link sc ok HI Hv) as HI2.
      destruct (is_internal link base_netloc) as [[]|e] eqn:Hint.
      * destruct (recurse link _) as [[[[]|e] st3]|] eqn:Hr; [| |done].
        -- eapply Hrec in Hr as [HI3 _]; [by eapply IH|by apply Q_internal|done].
        -- eapply Hrec in Hr as [HI3 He]; [|by apply Q_internal|done].
           by simplify_eq.
      * by eapply IH.
      * simplify_eq. split; [done|]. intros e' [= <-].
        apply is_internal_raises in Hint. left. by exists link.
Qed.

Lemma crawl_preserves fuel : ∀ url depth st r st',
  Q url → I st →
  crawl fuel url base_netloc depth max_depth st = Some (r, st') →
  I st' ∧ ∀ e, r = Raised e → raised_by_library e.
Proof.
  induction fuel as [|fuel IH]; intros url depth st r st' HQ HI Hrun.
  - simpl in Hrun. destruct (_ || _); by simplify_eq.
  - destruct (decide (depth > max_depth ∨ url ∈ visited st)) as [Hg|Hg].
    + rewrite crawl_stop in Hrun by done. by simplify_eq.
    + rewrite crawl_go in Hrun by (try lia; tauto). cbv zeta in Hrun.
      destruct (fetch_page _ _) as [page|e].
      * destruct (page_links page url) as [links|e] eqn:Hl.
        -- eapply crawl_links_preserves in Hrun; [done| |apply I_visit; tauto].
           intros. by eapply IH.
        -- simplify_eq. split; [apply I_visit; tauto|].
           intros e' [= <-]. by eapply page_links_raises.
      * simplify_eq. split; [|done]. apply I_page_error; tauto.
Qed.

Lemma crawl_loop_preserves fuel depth links st r st' :
  I st →
  crawl_links base_netloc
    (λ link, crawl fuel link base_netloc depth max_depth) links st
    = Some (r, st') →
  I st' ∧ ∀ e, r = Raised e → raised_by_library e.
Proof.
  apply crawl_links_preserves. intros. by eapply crawl_preserves.
Qed.

End Invariant.

(** *** Termination *)

Lemma crawl_links_some base_netloc recurse :
  (∀ link st, is_Some (recurse link st)) →
  ∀ links st, is_Some (crawl_links base_netloc recurse links st).
Proof.
  intros Hrec links. induction links as [|link rest IH]; intros st.
  - by eexists.
  - destruct (decide (link ∈ visited st)) as [Hv|Hv].
    + by rewrite crawl_links_skip.
    + rewrite crawl_links_check by done.
      destruct (check_result _ _) as [sc ok]. cbv zeta.
      destruct (is_internal _ _) as [[]|e]; [|done|by eexists].
      destruct (Hrec link (results_append (link, sc, ok, "")
                             (log (HEAD link) st))) as [[[[]|e] st3] ->];
        [done|by eexists].
Qed.

Lemma crawl_some fuel : ∀ url base_netloc depth max_depth st,
  (enough_fuel depth max_depth ≤ fuel)%nat →
  is_Some (crawl fuel url base_netloc depth max_depth st).
Proof.
  unfold enough_fuel.
  induction fuel as [|fuel IH]; intros url base_netloc depth max_depth st Hf.
  - rewrite crawl_stop; [by eexists|]. left. lia.
  - destruct (decide (depth > max_depth ∨ url ∈ visited st)) as [Hg|Hg].
    + rewrite crawl_stop by done. by eexists.
    + rewrite crawl_go by (try lia; tauto). cbv zeta.
      destruct (fetch_page _ _); [|by eexists].
      destruct (page_links _ _); [|by eexists].
      apply crawl_links_some. intros link st2. apply IH. lia.
Qed.

(** More fuel does not change the result. *)
Lemma crawl_links_mono base_netloc recurse1 recurse2 :
  (∀ link st x, recurse1 link st = Some x → recurse2 link st = Some x) →
  ∀ links st x, crawl_links base_netloc recurse1 links st = Some x →
    crawl_links base_netloc recurse2 links st = Some x.
Proof.
  intros Hrec links. induction links as [|link rest IH]; intros st x Hrun.
  - done.
  - destruct (decide (link ∈ visited st)) as [Hv|Hv].
    + rewrite crawl_links_skip in Hrun |- * by done. by apply IH.
    + rewrite crawl_links_check in Hrun |- * by done.
      destruct (check_result _ _) as [sc ok]. cbv zeta in Hrun |- *.
      destruct (is_internal _ _) as [[]|e]; [|by apply IH|done].
      destruct (recurse1 link _) as [[[[]|e] st3]|] eqn:Hr; [| |done];
        rewrite (Hrec _ _ _ Hr); [by apply IH|done].
Qed.

Lemma crawl_fuel_mono fuel : ∀ fuel' url base_netloc depth max_depth st x,
  (fuel ≤ fuel')%nat →
  crawl fuel url base_netloc depth max_depth st = Some x →
  crawl fuel' url base_netloc depth max_depth st = Some x.
Proof.
  induction fuel as [|fuel IH];
    intros fuel' url base_netloc depth max_depth st x Hle Hrun.
  - destruct (decide (depth > max_depth ∨ url ∈ visited st)) as [Hg|Hg].
    + rewrite crawl_stop in Hrun |- * by done. done.
    + by rewrite crawl_out_of_fuel in Hrun by (try lia; tauto).
  - destruct fuel' as [|fuel']; [lia|].
    destruct (decide (depth > max_depth ∨ url ∈ visited st)) as [Hg|Hg].
    + rewrite crawl_stop in Hrun |- * by done. done.
    + rewrite crawl_go in Hrun |- * by (try lia; tauto).
      cbv zeta in Hrun |- *. destruct (fetch_page _ _); [|done].
      destruct (page_links _ _); [|done].
      eapply crawl_links_mono; [|done]. intros link st2 y. apply IH. lia.
Qed.

(** A call of [crawl] comes to an end, and when it ends on an
    exception, on one that a library raised. *)
Lemma crawl_ends fuel url base_netloc depth max_depth st :
  (enough_fuel depth max_depth ≤ fuel)%nat →
  ∃ r st', crawl fuel url base_netloc depth max_depth st = Some (r, st').
Proof.
  intros Hf.
  destruct (crawl_some fuel url base_netloc depth max_depth st Hf)
    as [[r st'] Hrun].
  by exists r, st'.
Qed.

Lemma crawl_raises_library fuel url base_netloc depth max_depth st e st' :
  crawl fuel url base_netloc depth max_depth st = Some (Raised e, st') →
  raised_by_library e.
Proof.
  intros Hrun.
  eapply (crawl_preserves base_netloc max_depth (λ _, True) (λ _, True))
    in Hrun as [_ He]; try done. by apply He.
Qed.

Lemma crawl_run_result url base_netloc depth max_depth st :
  ∃ r st', ∀ extra,
    crawl (enough_fuel depth max_depth + extra) url base_netloc depth max_depth st
      = Some (r, st').
Proof.
  destruct (crawl_ends (enough_fuel depth max_depth) url base_netloc
              depth max_depth st) as (r & st' & Hrun); [done|].
  exists r, st'. intros extra. eapply crawl_fuel_mono; [|done]. lia.
Qed.

(** *** A page whose links are not followed *)

Lemma check_records_cons t0 link links :
  check_records t0 (link :: links) =
    (let '(status_code, ok) := check_result t0 link in
     (link, status_code, ok, "")) :: check_records (S t0) links.
Proof.
  unfold check_records. rewrite imap_cons, Nat.add_0_r. f_equal.
  apply imap_ext. intros i x _. simpl. by rewrite Nat.add_succ_r.
Qed.

Lemma check_records_urls t0 links :
  rec_url <$> check_records t0 links = links.
Proof.
  revert t0. induction links as [|link links IH]; intros t0; [done|].
  rewrite check_records_cons, fmap_cons, IH.
  by destruct (check_result t0 link).
Qed.

(** When [is_internal] answers on every link the loop gets to, and the
    recursive calls do nothing, the loop probes and records the links
    that are not visited, in order. *)
Lemma crawl_links_leaf base_netloc recurse :
  (∀ link st, recurse link st = Some (Returned tt, st)) →
  ∀ links st,
    (∀ link, link ∈ unvisited (visited st) links →
       ∃ b, is_internal link base_netloc = Returned b) →
    crawl_links base_netloc recurse links st =
      Some (Returned tt,
            {| visited := visited st;
               results := results st ++
                 check_records (clock st) (unvisited (visited st) links);
               sent := sent st ++ (HEAD <$> unvisited (visited st) links) |}).
Proof.
  intros Hrec links. unfold unvisited.
  induction links as [|link rest IH]; intros st Hint.
  - rewrite crawl_links_nil. destruct st. simpl. by rewrite !app_nil_r.
  - destruct (decide (link ∈ visited st)) as [Hv|Hv].
    + rewrite filter_cons_False in Hint |- * by (by intros ?).
      rewrite crawl_links_skip by done. by apply IH.
    + rewrite filter_cons_True in Hint |- * by done.
      rewrite crawl_links_check by done.
      rewrite check_records_cons, fmap_cons.
      destruct (Hint link) as [b Hb]; [by left|].
      destruct (check_result (clock st) link) as [sc ok]. cbv zeta.
      rewrite Hb, Hrec.
      assert (crawl_links base_netloc recurse rest
                (results_append (link, sc, ok, "") (log (HEAD link) st)) =
              Some (Returned (), {|
                visited := visited st;
                results := results st ++ (link, sc, ok, "") ::
                  check_records (S (clock st))
                    (filter (λ link0, link0 ∉ visited st) rest);
                sent := sent st ++ HEAD link ::
                  (HEAD <$> filter (λ link0, link0 ∉ visited st) rest) |}))
        as ->; [|by destruct b].
      rewrite IH.
      * simpl. unfold clock. simpl.
        rewrite length_app, Nat.add_1_r, <- !app_assoc. done.
      * simpl. intros link' Hin. apply Hint. by right.
Qed.

Lemma crawl_error fuel url base_netloc depth max_depth st e :
  depth ≤ max_depth → url ∉ visited st →
  fetch_page (clock st) url = Raised e →
  crawl (S fuel) url base_netloc depth max_depth st =
    Some (Returned tt,
          {| visited := {[url]} ∪ visited st;
             results := results st ++ [(url, None, false, "PAGE ERROR")];
             sent := sent st ++ [GET url] |}).
Proof. intros Hd Hv He. rewrite crawl_go by done. cbv zeta. by rewrite He. Qed.

(** A page that the parser or [urljoin] rejects ends the call on their
    exception, after the request and before any probe. *)
Lemma crawl_rejected fuel url base_netloc depth max_depth st page e :
  depth ≤ max_depth → url ∉ visited st →
  fetch_page (clock st) url = Returned page →
  page_links page url = Raised e →
  crawl (S fuel) url base_netloc depth max_depth st =
    Some (Raised e,
          {| visited := {[url]} ∪ visited st;
             results := results st;
             sent := sent st ++ [GET url] |}).
Proof.
  intros Hd Hv Hpage He. rewrite crawl_go by done. cbv zeta.
  by rewrite Hpage, He.
Qed.

Lemma crawl_leaf fuel url base_netloc max_depth st page links :
  url ∉ visited st →
  fetch_page (clock st) url = Returned page →
  page_links page url = Returned links →
  (∀ link, link ∈ unvisited ({[url]} ∪ visited st) links →
     ∃ b, is_internal link base_netloc = Returned b) →
  crawl (S fuel) url base_netloc max_depth max_depth st =
    Some (Returned tt,
          {| visited := {[url]} ∪ visited st;
             results := results st ++
               check_records (S (clock st))
                 (unvisited ({[url]} ∪ visited st) links);
             sent := sent st ++ GET url ::
               (HEAD <$> unvisited ({[url]} ∪ visited st) links) |}).
Proof.
  intros Hv Hpage Hlinks Hint.
  rewrite crawl_go by (done || lia). cbv zeta. rewrite Hpage, Hlinks.
  rewrite crawl_links_leaf.
  - simpl. unfold clock. simpl.
    by rewrite length_app, Nat.add_1_r, <- app_assoc.
  - intros link st2. apply crawl_stop. left. lia.
  - done.
Qed.

Lemma fetch_page_raises t url :
  (∃ e, fetch_page t url = Raised e) ↔
  (∃ e, requests_get net t url = Raised e) ∨
  (∃ page, requests_get net t url = Returned page ∧
           400 ≤ status_code page < 600).
Proof.
  unfold fetch_page, raise_for_status.
  destruct (requests_get net t url) as [page|e].
  - case_bool_decide as Hs; split.
    + intros _. right. by exists page.
    + intros _. by exists HTTPError.
    + by intros [e ?].
    + intros [[e ?]|(page' & [= <-] & ?)]; [done|lia].
  - split; [intros _; left|intros _]; by exists e.
Qed.

Lemma fetch_page_returns t url page :
  requests_get net t url = Returned page →
  ¬ (400 ≤ status_code page < 600) →
  fetch_page t url = Returned page.
Proof.
  intros Hget Hs. unfold fetch_page, raise_for_status. rewrite Hget.
  by rewrite bool_decide_eq_false_2.
Qed.

(** The state after the loop has probed [link] and recorded the
    answer, and what the loop does next. *)
Lemma crawl_links_probe base_netloc recurse link rest st :
  link ∉ visited st →
  crawl_links base_netloc recurse (link :: rest) st =
    match is_internal link base_netloc with
    | Raised e => Some (Raised e, probe net link st)
    | Returned true =>
        match recurse link (probe net link st) with
        | Some (Returned _, st3) => crawl_links base_netloc recurse rest st3
        | Some (Raised e, st3) => Some (Raised e, st3)
        | None => None
        end
    | Returned false => crawl_links base_netloc recurse rest (probe net link st)
    end.
Proof.
  intros Hv. rewrite crawl_links_check by done. unfold probe.
  by destruct (check_result (clock st) link).
Qed.

(** No record is made for a URL that is in [visited]. *)
Lemma crawl_loop_avoids fuel base_netloc depth max_depth links st r st' u :
  u ∈ visited st →
  crawl_links base_netloc
    (λ link, crawl fuel link base_netloc depth max_depth) links st
    = Some (r, st') →
  ∀ x, x ∈ results st' → rec_url x = u → x ∈ results st.
Proof.
  intros Hu Hrun.
  eapply (crawl_loop_preserves base_netloc max_depth (λ _, True)
            (λ s, u ∈ visited s ∧
                  ∀ x, x ∈ results s → rec_url x = u → x ∈ results st))
    in Hrun as [[_ ?] _]; try done.
  - intros s v [Hs Hx] _ Hv. simpl. split; [|done].
    apply elem_of_union. by right.
  - intros s v [Hs Hx] _ Hv. simpl. split; [apply elem_of_union; by right|].
    intros x [?| ->%list_elem_of_singleton]%elem_of_app; [by apply Hx|].
    intros Heq. exfalso. apply Hv. unfold rec_url in Heq. simpl in Heq. by subst.
  - intros s link sc ok [Hs Hx] Hl. simpl. split; [done|].
    intros x [?| ->%list_elem_of_singleton]%elem_of_app; [by apply Hx|].
    intros Heq. exfalso. apply Hl. unfold rec_url in Heq. simpl in Heq. by subst.
Qed.

(** ** [check_link], [is_internal] and [crawl] *)

(** C1. [check_link] hands back [(status_code, True)] exactly when a
    response came and its status code is below 400, hands back
    [(None, False)] whenever the request raises, and never raises
    itself. The loop of [crawl] goes on after a probe whatever the
    probe was answered: with the record appended, it classifies the
    link and recurses or moves to the next link. A call of [crawl]
    that ends on an exception ends on one of [urlparse], [urljoin] or
    [BeautifulSoup]. *)
Theorem check_link_never_raises (t : nat) (url : string) :
  (∀ code, check_link t url = Returned (Some code, true) ↔
     ∃ response, requests_head net t url = Returned response ∧
                 status_code response = code ∧ code < 400) ∧
  (∀ e, requests_head net t url = Raised e →
     check_link t url = Returned (None, false)) ∧
  (∀ e, check_link t url ≠ Raised e) ∧
  (∀ base_netloc recurse rest st, url ∉ visited st →
     crawl_links base_netloc recurse (url :: rest) st =
       match is_internal url base_netloc with
       | Raised e => Some (Raised e, probe net url st)
       | Returned true =>
           match recurse url (probe net url st) with
           | Some (Returned _, st3) => crawl_links base_netloc recurse rest st3
           | Some (Raised e, st3) => Some (Raised e, st3)
           | None => None
           end
       | Returned false =>
           crawl_links base_netloc recurse rest (probe net url st)
       end) ∧
  (∀ fuel page base_netloc depth max_depth st e st',
     crawl fuel page base_netloc depth max_depth st = Some (Raised e, st') →
     raised_by_library e).
Proof.
  unfold check_link. split_and!.
  - intros code. split.
    + destruct (requests_head net t url) as [response|e]; [|done].
      intros [= <- H%bool_decide_eq_true]. by exists response.
    + intros (response & -> & <- & H). by rewrite bool_decide_eq_true_2.
  - by intros e ->.
  - intros e. by destruct (requests_head net t url).
  - intros. by apply crawl_links_probe.
  - intros. by eapply crawl_raises_library.
Qed.

(** C2. A call of [crawl] that gets as far as the request (the depth
    is within the bound and the URL is new) and whose request raises, or
    is answered with a status from 400 to 599, marks the URL, sends that
    one request and nothing else, and appends the single record
    [(url, None, False, "PAGE ERROR")]; called on the seed from the
    empty state it leaves exactly that record. A request answered with
    any other status, a success or not, is no page error: the page is
    parsed and the call appends no record for [url]. *)
Theorem crawl_page_error fuel url base_netloc depth max_depth st :
  depth ≤ max_depth → url ∉ visited st →
  ((∃ e, requests_get net (clock st) url = Raised e) ∨
   (∃ page, requests_get net (clock st) url = Returned page ∧
            400 ≤ status_code page < 600) →
   crawl (S fuel) url base_netloc depth max_depth st =
     Some (Returned tt,
           {| visited := {[url]} ∪ visited st;
              results := results st ++ [(url, None, false, "PAGE ERROR")];
              sent := sent st ++ [GET url] |}) ∧
   (st = init_state →
    ∃ st', crawl (S fuel) url base_netloc depth max_depth init_state =
             Some (Returned tt, st') ∧
           results st' = [(url, None, false, "PAGE ERROR")] ∧
           sent st' = [GET url])) ∧
  (∀ page, requests_get net (clock st) url = Returned page →
     ¬ (400 ≤ status_code page < 600) →
     crawl (S fuel) url base_netloc depth max_depth st =
       match page_links page url with
       | Raised e => Some (Raised e, log (GET url) (visited_add url st))
       | Returned links =>
           crawl_links base_netloc
             (λ link, crawl fuel link base_netloc (depth + 1) max_depth)
             links (log (GET url) (visited_add url st))
       end ∧
     ∀ r st', crawl (S fuel) url base_netloc depth max_depth st = Some (r, st') →
       ∀ x, x ∈ results st' → rec_url x = url → x ∈ results st).
Proof.
  intros Hd Hv. split.
  - intros Hfail. apply fetch_page_raises in Hfail as [e He].
    pose proof (crawl_error fuel url base_netloc depth max_depth st e Hd Hv He)
      as Hrun.
    split; [done|]. intros ->. eexists. split; [exact Hrun|done].
  - intros page Hget Hs.
    pose proof (fetch_page_returns _ _ _ Hget Hs) as Hpage.
    rewrite crawl_go by done. cbv zeta. rewrite Hpage. split; [done|].
    intros r st' Hrun. destruct (page_links page url) as [links|e].
    + intros x Hx Hurl.
      eapply (crawl_loop_avoids _ _ _ _ _ _ _ _ url) in Hrun; [exact Hrun| |done..].
      simpl. apply elem_of_union_l. by apply elem_of_singleton.
    + by simplify_eq.
Qed.

(** C3. When the depth exceeds the bound or the URL is already in
    [visited], [crawl] hands the state back untouched: nothing marked,
    nothing recorded, no request sent. The bound is inclusive: at
    [depth = max_depth] a new page that can be fetched is requested,
    and when its links can be extracted and [is_internal] answers on
    each of them, every link on it that is not visited is probed and
    recorded, and no other page is requested. A page that the parser
    rejects, or with a reference that [urljoin] rejects, is requested
    and none of its links is probed: the call ends on the exception.
    So the crawl of depth 1 of [Web.deep_bad_net] ends on a
    [ValueError] after the request of the page below the seed, whose
    good link is never probed. *)
Theorem crawl_depth_bound fuel url base_netloc depth max_depth st :
  (depth > max_depth ∨ url ∈ visited st →
   crawl fuel url base_netloc depth max_depth st = Some (Returned tt, st)) ∧
  (depth = max_depth → url ∉ visited st →
   ∀ page links, fetch_page (clock st) url = Returned page →
     page_links page url = Returned links →
     (∀ link, link ∈ unvisited ({[url]} ∪ visited st) links →
        ∃ b, is_internal link base_netloc = Returned b) →
     crawl (S fuel) url base_netloc depth max_depth st =
       Some (Returned tt,
             {| visited := {[url]} ∪ visited st;
                results := results st ++
                  check_records (S (clock st))
                    (unvisited ({[url]} ∪ visited st) links);
                sent := sent st ++ GET url ::
                  (HEAD <$> unvisited ({[url]} ∪ visited st) links) |})) ∧
  (depth = max_depth → url ∉ visited st →
   ∀ page e, fetch_page (clock st) url = Returned page →
     page_links page url = Raised e →
     crawl (S fuel) url base_netloc depth max_depth st =
       Some (Raised e,
             {| visited := {[url]} ∪ visited st;
                results := results st;
                sent := sent st ++ [GET url] |})) ∧
  (requests_get Web.deep_bad_net 2 Web.about = Returned Crawled.deep_bad_page ∧
   Web.run Web.deep_bad_net 1 =
     Some (Raised ValueError, Crawled.after_deep_bad_page) ∧
   Web.ext ∉ link_checks (sent Crawled.after_deep_bad_page)).
Proof.
  split; [|split; [|split]].
  - apply crawl_stop.
  - intros -> Hv page links Hpage Hlinks Hint. by eapply crawl_leaf.
  - intros -> Hv page e Hpage He. by eapply crawl_rejected.
  - split_and!; [vm_compute; reflexivity..|].
    apply (bool_decide_unpack _). vm_compute. exact I.
Qed.

(** *** What holds of the log and of [visited] all along *)

(** Pages are requested once, and [visited] holds what was there at
    the start and the pages requested since. *)
Lemma crawl_fetch_once fuel url base_netloc depth max_depth st r st' :
  NoDup (page_fetches (sent st)) →
  (∀ u, u ∈ page_fetches (sent st) → u ∈ visited st) →
  crawl fuel url base_netloc depth max_depth st = Some (r, st') →
  NoDup (page_fetches (sent st')) ∧
  (∀ u, u ∈ page_fetches (sent st') → u ∈ visited st').
Proof.
  intros Hnd Hsub Hrun.
  eapply (crawl_preserves base_netloc max_depth (λ _, True)
            (λ s, NoDup (page_fetches (sent s)) ∧
                  ∀ u, u ∈ page_fetches (sent s) → u ∈ visited s))
    in Hrun as [? _]; try done.
  - intros s u [Hn Hs] _ Hu. simpl. rewrite page_fetches_get. split.
    + apply NoDup_app. split_and!; [done| |apply NoDup_singleton].
      intros x Hx ->%list_elem_of_singleton. by apply Hu, Hs.
    + intros x [Hx| ->%list_elem_of_singleton]%elem_of_app.
      * apply elem_of_union_r. by apply Hs.
      * apply elem_of_union_l. by apply elem_of_singleton.
  - intros s u [Hn Hs] _ Hu. simpl. rewrite page_fetches_get. split.
    + apply NoDup_app. split_and!; [done| |apply NoDup_singleton].
      intros x Hx ->%list_elem_of_singleton. by apply Hu, Hs.
    + intros x [Hx| ->%list_elem_of_singleton]%elem_of_app.
      * apply elem_of_union_r. by apply Hs.
      * apply elem_of_union_l. by apply elem_of_singleton.
  - intros s link sc ok [Hn Hs] _. simpl. by rewrite page_fetches_head.
Qed.

Lemma crawl_visited_fetched fuel url base_netloc depth max_depth st r st' :
  (∀ u, u ∈ visited st ↔ u ∈ page_fetches (sent st)) →
  crawl fuel url base_netloc depth max_depth st = Some (r, st') →
  ∀ u, u ∈ visited st' ↔ u ∈ page_fetches (sent st').
Proof.
  intros Hst Hrun.
  eapply (crawl_preserves base_netloc max_depth (λ _, True)
            (λ s, ∀ u, u ∈ visited s ↔ u ∈ page_fetches (sent s)))
    in Hrun as [? _]; try done.
  - intros s u Hs _ _ x. simpl. rewrite page_fetches_get, elem_of_app,
      list_elem_of_singleton, <- Hs, elem_of_union, elem_of_singleton. tauto.
  - intros s u Hs _ _ x. simpl. rewrite page_fetches_get, elem_of_app,
      list_elem_of_singleton, <- Hs, elem_of_union, elem_of_singleton. tauto.
  - intros s link sc ok Hs _ x. simpl. by rewrite page_fetches_head.
Qed.

Lemma crawl_visited_mono fuel url base_netloc depth max_depth st r st' :
  crawl fuel url base_netloc depth max_depth st = Some (r, st') →
  visited st ⊆ visited st'.
Proof.
  intros Hrun.
  eapply (crawl_preserves base_netloc max_depth (λ _, True)
            (λ s, visited st ⊆ visited s))
    in Hrun as [? _]; try done.
  - intros s u Hs _ _. simpl. intros x Hx. apply elem_of_union_r. by apply Hs.
  - intros s u Hs _ _. simpl. intros x Hx. apply elem_of_union_r. by apply Hs.
Qed.

(** Every page requested is the URL of the call or an internal link. *)
Lemma crawl_fetches_internal fuel url base_netloc depth max_depth st r st' :
  crawl fuel url base_netloc depth max_depth st = Some (r, st') →
  ∀ u, u ∈ page_fetches (sent st') →
    u ∈ page_fetches (sent st) ∨ u = url ∨
    is_internal u base_netloc = Returned true.
Proof.
  intros Hrun.
  eapply (crawl_preserves base_netloc max_depth
            (λ u, u = url ∨ is_internal u base_netloc = Returned true)
            (λ s, ∀ u, u ∈ page_fetches (sent s) →
               u ∈ page_fetches (sent st) ∨ u = url ∨
               is_internal u base_netloc = Returned true))
    in Hrun as [? _]; try done.
  - by right.
  - intros s u Hs HQ _ x. simpl. rewrite page_fetches_get, elem_of_app,
      list_elem_of_singleton. intros [?| ->]; [by apply Hs|by right].
  - intros s u Hs HQ _ x. simpl. rewrite page_fetches_get, elem_of_app,
      list_elem_of_singleton. intros [?| ->]; [by apply Hs|by right].
  - intros s link sc ok Hs _ x. simpl. rewrite page_fetches_head. apply Hs.
  - by left.
  - by left.
Qed.

(** Every link probed is recorded, and the other way round. *)
Lemma crawl_checks_recorded fuel url base_netloc depth max_depth st r st' :
  crawl fuel url base_netloc depth max_depth st = Some (r, st') →
  ∀ u, u ∈ link_checks (sent st') → u ∈ link_checks (sent st) ∨
                                     u ∈ rec_url <$> results st'.
Proof.
  intros Hrun.
  eapply (crawl_preserves base_netloc max_depth (λ _, True)
            (λ s, ∀ u, u ∈ link_checks (sent s) →
               u ∈ link_checks (sent st) ∨ u ∈ rec_url <$> results s))
    in Hrun as [? _]; try done.
  - intros s u Hs _ _ x. simpl. rewrite link_checks_get. apply Hs.
  - intros s u Hs _ _ x. simpl. rewrite link_checks_get, fmap_app, elem_of_app.
    intros [?|?]%Hs; auto.
  - intros s link sc ok Hs _ x. simpl.
    rewrite link_checks_head, fmap_app, !elem_of_app, list_elem_of_singleton.
    intros [[?|?]%Hs| ->]; auto. right. right. by left.
  - by left.
Qed.

Lemma enough_fuel_succ (max_depth : Z) :
  0 ≤ max_depth → ∃ n, enough_fuel 0 max_depth = S n.
Proof.
  intros H. unfold enough_fuel. exists (Z.to_nat max_depth). lia.
Qed.

(** C4. [is_internal] answers [True] exactly when the network location
    of the URL is empty or is, as a string, the origin's. In the loop
    of [crawl] a link that is not visited and that [is_internal]
    classifies as external is probed and recorded, and the loop goes
    on to the next link without a call of [crawl] on it. In a crawl
    from the empty state every page requested is the seed or a link
    that [is_internal] classifies as internal, so a link it does not
    classify as internal is never requested as a page. In the example
    web the external URL is probed and never requested, and the
    internal page is requested. *)
Theorem is_internal_gates_recursion :
  (∀ url origin_host,
     is_internal url origin_host = Returned true ↔
     netloc url = Returned "" ∨ netloc url = Returned origin_host) ∧
  (∀ base_netloc recurse link rest st,
     link ∉ visited st →
     is_internal link base_netloc = Returned false →
     crawl_links base_netloc recurse (link :: rest) st =
       crawl_links base_netloc recurse rest (probe net link st)) ∧
  (∀ seed base_netloc max_depth,
     ∃ r st', (∀ extra, crawl (enough_fuel 0 max_depth + extra) seed base_netloc
                          0 max_depth init_state = Some (r, st')) ∧
              (∀ u, u ∈ page_fetches (sent st') →
                 u = seed ∨ is_internal u base_netloc = Returned true) ∧
              (∀ u, is_internal u base_netloc ≠ Returned true → u ≠ seed →
                 u ∉ page_fetches (sent st'))) ∧
  (Web.netloc Web.ext = Returned "external.test" ∧
   Web.netloc Web.about = Returned "example.com" ∧
   Web.run Web.example_net 1 = Some (Returned tt, Crawled.depth_1) ∧
   link_checks (sent Crawled.depth_1) = [Web.about; Web.ext; Web.ext] ∧
   page_fetches (sent Crawled.depth_1) = [Web.seed; Web.about]).
Proof.
  split; [|split; [|split]].
  - intros url origin_host. unfold is_internal.
    destruct (netloc url) as [parsed_netloc|e].
    + split.
      * intros [= [H|H]%orb_true_iff]; apply bool_decide_eq_true in H;
          subst; auto.
      * intros [[= ->]|[= ->]].
        -- by rewrite bool_decide_eq_true_2.
        -- rewrite (bool_decide_eq_true_2 (origin_host = origin_host)) by done.
           by rewrite orb_true_r.
    + split; [done|]. by intros [?|?].
  - intros base_netloc recurse link rest st Hv Hext.
    rewrite crawl_links_probe by done. by rewrite Hext.
  - intros seed base_netloc max_depth.
    destruct (crawl_run_result seed base_netloc 0 max_depth init_state)
      as (r & st' & Hrun).
    exists r, st'. split; [done|].
    assert (∀ u, u ∈ page_fetches (sent st') →
              u = seed ∨ is_internal u base_netloc = Returned true) as Hint.
    { intros u Hu.
      destruct (crawl_fetches_internal _ _ _ _ _ _ _ _ (Hrun 0%nat) u Hu)
        as [H|H]; [|done]. simpl in H. by apply elem_of_nil in H. }
    split; [done|]. intros u Hext Hne Hu.
    destruct (Hint u Hu); congruence.
  - split_and!; vm_compute; reflexivity.
Qed.

(** C6. Every call of [crawl] comes to an end, whatever the pages link
    to, and in a crawl from the empty state no URL is requested as a
    page twice, and every URL requested is in [visited]. In the example
    web, where the internal page links back to the seed, the crawl of
    depth 3 requests the two pages once each. *)
Theorem crawl_terminates_fetching_once :
  (∀ fuel url base_netloc depth max_depth st,
     (enough_fuel depth max_depth ≤ fuel)%nat →
     ∃ r st', crawl fuel url base_netloc depth max_depth st = Some (r, st')) ∧
  (∀ seed base_netloc max_depth,
     ∃ r st', (∀ extra, crawl (enough_fuel 0 max_depth + extra) seed base_netloc
                          0 max_depth init_state = Some (r, st')) ∧
              NoDup (page_fetches (sent st')) ∧
              (∀ u, u ∈ page_fetches (sent st') → u ∈ visited st')) ∧
  (∃ st', Web.run Web.example_net 3 = Some (Returned tt, st') ∧
          page_fetches (sent st') = [Web.seed; Web.about]).
Proof.
  split_and!.
  - intros. by apply crawl_ends.
  - intros seed base_netloc max_depth.
    destruct (crawl_run_result seed base_netloc 0 max_depth init_state)
      as (r & st' & Hrun).
    exists r, st'. split; [done|].
    eapply crawl_fetch_once; [| |exact (Hrun 0%nat)]; simpl.
    + apply NoDup_nil_2.
    + by intros u ?%elem_of_nil.
  - eexists. split; vm_compute; reflexivity.
Qed.

(** C10. In a crawl from the empty state whose seed page can be
    fetched, no record has the seed URL; a record with the seed URL is
    the "PAGE ERROR" record of a seed that could not be fetched, and
    is then the only record. Along every call [visited] only grows. *)
Theorem seed_never_recorded seed base_netloc max_depth :
  ∃ r st', (∀ extra, crawl (enough_fuel 0 max_depth + extra) seed base_netloc
                       0 max_depth init_state = Some (r, st')) ∧
           (∀ page, fetch_page 0 seed = Returned page →
              ∀ x, x ∈ results st' → rec_url x ≠ seed) ∧
           (∀ x, x ∈ results st' → rec_url x = seed →
              x = (seed, None, false, "PAGE ERROR") ∧ results st' = [x] ∧
              ∃ e, fetch_page 0 seed = Raised e) ∧
           (∀ fuel url depth st r' st'',
              crawl fuel url base_netloc depth max_depth st = Some (r', st'') →
              visited st ⊆ visited st'').
Proof.
  destruct (crawl_run_result seed base_netloc 0 max_depth init_state)
    as (r & st' & Hrun).
  exists r, st'. split; [done|]. specialize (Hrun 0%nat).
  rewrite Nat.add_0_r in Hrun.
  destruct (decide (0 ≤ max_depth)) as [Hd|Hd].
  2:{ rewrite crawl_stop in Hrun by (left; lia). simplify_eq. split_and!.
      - by intros page _ x ?%elem_of_nil.
      - by intros x ?%elem_of_nil.
      - intros. by eapply crawl_visited_mono. }
  destruct (enough_fuel_succ max_depth Hd) as [n Hn]. rewrite Hn in Hrun.
  destruct (fetch_page 0 seed) as [page|e] eqn:Hpage.
  - rewrite crawl_go in Hrun by done. cbv zeta in Hrun.
    change (clock init_state) with 0%nat in Hrun. rewrite Hpage in Hrun.
    assert (∀ x, x ∈ results st' → rec_url x ≠ seed) as Hres.
    { destruct (page_links page seed) as [links|e].
      - intros x Hx Hurl.
        eapply (crawl_loop_avoids _ _ _ _ _ _ _ _ seed) in Hrun; [| |done..].
        + simpl in Hrun. by apply elem_of_nil in Hrun.
        + simpl. apply elem_of_union_l. by apply elem_of_singleton.
      - simplify_eq. simpl. by intros x ?%elem_of_nil. }
    split_and!.
    + intros page' _ x Hx. by apply Hres.
    + intros x Hx Hurl. by apply Hres in Hx.
    + intros. by eapply crawl_visited_mono.
  - rewrite (crawl_error _ _ _ _ _ _ e) in Hrun by done. simplify_eq.
    split_and!.
    + done.
    + simpl. intros x ->%list_elem_of_singleton _. eauto.
    + intros. by eapply crawl_visited_mono.
Qed.

(** The log and the results only grow. *)
Lemma crawl_log_grows fuel url base_netloc depth max_depth st r st' l rs :
  l `prefix_of` sent st → rs `prefix_of` results st →
  crawl fuel url base_netloc depth max_depth st = Some (r, st') →
  l `prefix_of` sent st' ∧ rs `prefix_of` results st'.
Proof.
  intros Hl Hrs Hrun.
  eapply (crawl_preserves base_netloc max_depth (λ _, True)
            (λ s, l `prefix_of` sent s ∧ rs `prefix_of` results s))
    in Hrun as [? _]; try done.
  - intros s u [? ?] _ _. simpl. split; [by apply prefix_app_r|done].
  - intros s u [? ?] _ _. simpl. split; by apply prefix_app_r.
  - intros s link sc ok [? ?] _. simpl. split; by apply prefix_app_r.
Qed.

Lemma crawl_loop_log_grows fuel base_netloc depth max_depth links st r st' l rs :
  l `prefix_of` sent st → rs `prefix_of` results st →
  crawl_links base_netloc
    (λ link, crawl fuel link base_netloc depth max_depth) links st
    = Some (r, st') →
  l `prefix_of` sent st' ∧ rs `prefix_of` results st'.
Proof.
  intros Hl Hrs Hrun.
  eapply (crawl_loop_preserves base_netloc max_depth (λ _, True)
            (λ s, l `prefix_of` sent s ∧ rs `prefix_of` results s))
    in Hrun as [? _]; try done.
  - intros s u [? ?] _ _. simpl. split; [by apply prefix_app_r|done].
  - intros s u [? ?] _ _. simpl. split; by apply prefix_app_r.
  - intros s link sc ok [? ?] _. simpl. split; by apply prefix_app_r.
Qed.

(** A link that is not in [visited] when the loop reaches it is probed
    and recorded next. *)
Lemma crawl_loop_probes fuel base_netloc depth max_depth link rest st r st' :
  link ∉ visited st →
  crawl_links base_netloc
    (λ link, crawl fuel link base_netloc depth max_depth) (link :: rest) st
    = Some (r, st') →
  (sent st ++ [HEAD link]) `prefix_of` sent st' ∧
  (results st ++ [(link, (check_result (clock st) link).1,
                   (check_result (clock st) link).2, "")])
    `prefix_of` results st'.
Proof.
  intros Hv Hrun. rewrite crawl_links_probe in Hrun by done.
  change (sent st ++ [HEAD link]) with (sent (probe net link st)).
  change (results st ++ _) with (results (probe net link st)).
  destruct (is_internal link base_netloc) as [[]|e].
  - destruct (crawl fuel link _ _ _ _) as [[[[]|e] st3]|] eqn:Hrec;
      [| |done].
    + eapply crawl_log_grows in Hrec as [? ?]; [|done..].
      by eapply crawl_loop_log_grows.
    + simplify_eq. by eapply crawl_log_grows in Hrec.
  - by eapply crawl_loop_log_grows.
  - by simplify_eq.
Qed.

(** With a bound of zero only the page of the call is requested. *)
Lemma crawl_zero_fetches seed base_netloc r st' :
  crawl 1 seed base_netloc 0 0 init_state = Some (r, st') →
  page_fetches (sent st') = [seed].
Proof.
  intros Hrun. rewrite crawl_go in Hrun by done. cbv zeta in Hrun.
  destruct (fetch_page _ _) as [page|e]; [|by simplify_eq].
  destruct (page_links page seed) as [links|e]; [|by simplify_eq].
  eapply (crawl_links_preserves base_netloc (λ _, True)
            (λ s, page_fetches (sent s) = [seed])) in Hrun as [? _]; try done.
  - intros s link sc ok Hs _. simpl. by rewrite page_fetches_head.
  - intros link s r2 s2 _ Hs Hrec.
    rewrite crawl_stop in Hrec by (left; lia). by simplify_eq.
Qed.

(** *** Walking the set of links *)
Section Iteration.

Hypothesis set_iter_perm : ∀ s, set_iter s ≡ₚ elements s.

Lemma elem_of_set_iter (s : gset string) (u : string) :
  u ∈ set_iter s ↔ u ∈ s.
Proof. by rewrite (set_iter_perm s), elem_of_elements. Qed.

(** C7. A crawl from the empty state with [max_depth = 0] requests the
    seed page and no other page. When the seed page can be fetched,
    its links can be extracted and [is_internal] answers on each of
    them, the call returns, and the links probed are the links
    extracted from the page other than the seed itself, each recorded,
    so every such link is probed and recorded. A seed page that the
    parser rejects, or with a reference that [urljoin] rejects, is
    requested and none of its links is probed: the call ends on the
    exception with no record. So the crawl of [Web.bad_net] ends on a
    [ValueError] with no record, the good link of the page unprobed. *)
Theorem crawl_depth_zero seed base_netloc :
  (∃ r st', (∀ extra, crawl (enough_fuel 0 0 + extra) seed base_netloc 0 0
                        init_state = Some (r, st')) ∧
            page_fetches (sent st') = [seed] ∧
            (∀ page soup links,
               fetch_page 0 seed = Returned page →
               BeautifulSoup (text page) = Returned soup →
               extract_links soup seed = Returned links →
               (∀ link, link ∈ links → link ≠ seed →
                  ∃ b, is_internal link base_netloc = Returned b) →
               r = Returned tt ∧
               link_checks (sent st') = unvisited {[seed]} (set_iter links) ∧
               results st' =
                 check_records 1 (unvisited {[seed]} (set_iter links)) ∧
               (∀ link, link ∈ links → link ≠ seed →
                  link ∈ link_checks (sent st') ∧
                  link ∈ rec_url <$> results st')) ∧
            (∀ page e,
               fetch_page 0 seed = Returned page →
               page_links page seed = Raised e →
               r = Raised e ∧ results st' = [] ∧ sent st' = [GET seed])) ∧
  (requests_get Web.bad_net 0 Web.seed = Returned Crawled.bad_page ∧
   Web.run Web.bad_net 0 =
     Some (Raised ValueError, Crawled.after_bad_page) ∧
   results Crawled.after_bad_page = [] ∧
   Web.about ∉ link_checks (sent Crawled.after_bad_page)).
Proof.
  split.
  2:{ split_and!; [vm_compute; reflexivity..|].
      apply (bool_decide_unpack _). vm_compute. exact I. }
  destruct (crawl_run_result seed base_netloc 0 0 init_state)
    as (r & st' & Hrun).
  exists r, st'. split; [done|]. specialize (Hrun 0%nat).
  change (enough_fuel 0 0 + 0)%nat with 1%nat in Hrun.
  split; [by eapply crawl_zero_fetches|]. split.
  2:{ intros page e Hpage Hrej.
      rewrite (crawl_rejected _ _ _ _ _ _ page e) in Hrun by done.
      by simplify_eq. }
  intros page soup links Hpage Hsoup Hlinks Hint.
  assert (page_links page seed = Returned (set_iter links)) as Hpl.
  { unfold page_links. by rewrite Hsoup, Hlinks. }
  rewrite (crawl_leaf _ _ _ _ _ page (set_iter links)) in Hrun; try done.
  - simplify_eq. simpl.
    rewrite (right_id_L ∅ (∪)), link_checks_heads.
    rewrite check_records_urls. split_and!; [done..|].
    intros link Hin Hne.
    assert (link ∈ unvisited {[seed]} (set_iter links)); [|done].
    apply list_elem_of_filter. rewrite elem_of_set_iter.
    split; [|done]. by intros ?%elem_of_singleton.
  - simpl. rewrite (right_id_L ∅ (∪)).
    intros link [Hne Hin]%list_elem_of_filter. apply Hint.
    + by apply elem_of_set_iter.
    + intros ->. apply Hne. by apply elem_of_singleton.
Qed.

End Iteration.

End CrawlerFacts.

(** ** The link extractor *)

Section ExtractLinksFacts.

Variable urljoin : string → string → outcome string.

Abbreviation extract_links := (extract_links urljoin).

(** The inner loop: when it returns every reference it met was joined
    and the set has grown by the joined URLs; when it raises, a
    reference it met was rejected. *)
Lemma for_each_add_link_spec base_url attr (elements : list Tag) : ∀ links,
  match for_each (add_link urljoin base_url attr) elements links with
  | Returned links' =>
      (∀ element ref, element ∈ elements → get element attr = Some ref →
         ref ≠ "" → ∃ u, urljoin base_url ref = Returned u) ∧
      (∀ u, u ∈ links' ↔
         u ∈ links ∨
         ∃ element ref, element ∈ elements ∧ get element attr = Some ref ∧
                        ref ≠ "" ∧ urljoin base_url ref = Returned u)
  | Raised e =>
      ∃ element ref, element ∈ elements ∧ get element attr = Some ref ∧
                     ref ≠ "" ∧ urljoin base_url ref = Raised e
  end.
Proof.
  induction elements as [|x es IH]; intros links; simpl.
  - split.
    + by intros element ref ?%elem_of_nil.
    + intros u. split; [by left|].
      by intros [?|(element & ref & ?%elem_of_nil & _)].
  - assert (∀ links0, add_link urljoin base_url attr links x = Returned links0 →
              (links0 = links ∧
               ∀ ref, get x attr = Some ref → ref = "") ∨
              (∃ ref u, get x attr = Some ref ∧ ref ≠ "" ∧
                        urljoin base_url ref = Returned u ∧
                        links0 = {[u]} ∪ links)) as Hstep.
    { intros links0. unfold add_link.
      destruct (get x attr) as [link|]; [|intros [= <-]; by left].
      case_bool_decide as Hne.
      - destruct (urljoin base_url link) as [u|e] eqn:Hj; [|done].
        intros [= <-]. right. by exists link, u.
      - intros [= <-]. left. split; [done|]. intros ref [= <-].
        by destruct (decide (link = "")). }
    destruct (add_link urljoin base_url attr links x) as [links0|e] eqn:Hadd.
    + specialize (IH links0).
      destruct (for_each _ es links0) as [links'|e].
      * destruct IH as [Hall Hmem].
        destruct (Hstep links0 eq_refl)
          as [[-> Hempty]|(ref0 & u0 & Hg0 & Hn0 & Hj0 & ->)].
        -- split.
           ++ intros element ref [->|Hin]%elem_of_cons Hg Hn;
                [by apply Hempty in Hg|by eapply Hall].
           ++ intros u. rewrite Hmem. split.
              ** intros [?|(element & ref & Hin & ?)]; [by left|right].
                 exists element, ref. split; [by right|done].
              ** intros [?|(element & ref & [->|Hin]%elem_of_cons & Hg & Hn & ?)].
                 --- by left.
                 --- by apply Hempty in Hg.
                 --- right. by exists element, ref.
        -- split.
           ++ intros element ref [->|Hin]%elem_of_cons Hg Hn;
                [|by eapply Hall].
              exists u0. congruence.
           ++ intros u. rewrite Hmem, elem_of_union, elem_of_singleton. split.
              ** intros [[->|?]|(element & ref & Hin & ?)].
                 --- right. exists x, ref0. split; [by left|done].
                 --- by left.
                 --- right. exists element, ref. split; [by right|done].
              ** intros [?|(element & ref & [->|Hin]%elem_of_cons & Hg & Hn & Hj)].
                 --- left. by right.
                 --- left. left. congruence.
                 --- right. by exists element, ref.
      * destruct IH as (element & ref & Hin & ?).
        exists element, ref. split; [by right|done].
    + unfold add_link in Hadd. destruct (get x attr) as [link|] eqn:Hg; [|done].
      case_bool_decide as Hne; [|done].
      destruct (urljoin base_url link) as [u|e'] eqn:Hj; [done|].
      simplify_eq. exists x, link. split; [by left|done].
Qed.

(** The outer loop, over the pairs of a tag and an attribute. *)
Lemma for_each_tags_spec soup base_url (pairs : list (string * string)) :
  ∀ links,
  match for_each (λ links '(tag, attr),
                    for_each (add_link urljoin base_url attr)
                             (find_all soup tag) links) pairs links with
  | Returned links' =>
      (∀ tag attr element ref,
         (tag, attr) ∈ pairs → element ∈ find_all soup tag →
         get element attr = Some ref → ref ≠ "" →
         ∃ u, urljoin base_url ref = Returned u) ∧
      (∀ u, u ∈ links' ↔
         u ∈ links ∨
         ∃ tag attr element ref,
           (tag, attr) ∈ pairs ∧ element ∈ find_all soup tag ∧
           get element attr = Some ref ∧ ref ≠ "" ∧
           urljoin base_url ref = Returned u)
  | Raised e =>
      ∃ tag attr element ref,
        (tag, attr) ∈ pairs ∧ element ∈ find_all soup tag ∧
        get element attr = Some ref ∧ ref ≠ "" ∧
        urljoin base_url ref = Raised e
  end.
Proof.
  induction pairs as [|[tag attr] pairs IH]; intros links; simpl.
  - split.
    + by intros tag attr element ref ?%elem_of_nil.
    + intros u. split; [by left|].
      by intros [?|(tag & attr & element & ref & ?%elem_of_nil & _)].
  - pose proof (for_each_add_link_spec base_url attr (find_all soup tag) links)
      as Hin.
    destruct (for_each (add_link urljoin base_url attr) _ links)
      as [links0|e].
    + destruct Hin as [Hall0 Hmem0]. specialize (IH links0).
      destruct (for_each _ pairs links0) as [links'|e].
      * destruct IH as [Hall Hmem]. split.
        -- intros tag' attr' element ref [[= -> ->]|?]%elem_of_cons;
             [by apply Hall0|by apply Hall].
        -- intros u. rewrite Hmem, Hmem0. split.
           ++ intros [[?|(element & ref & ? & ?)]
                     |(tag' & attr' & element & ref & ? & ?)].
              ** by left.
              ** right. exists tag, attr, element, ref. split; [by left|done].
              ** right. exists tag', attr', element, ref.
                 split; [by right|done].
           ++ intros [?|(tag' & attr' & element & ref &
                         [[= -> ->]|?]%elem_of_cons & ?)].
              ** left. by left.
              ** left. right. by exists element, ref.
              ** right. by exists tag', attr', element, ref.
      * destruct IH as (tag' & attr' & element & ref & ? & ?).
        exists tag', attr', element, ref. split; [by right|done].
    + destruct Hin as (element & ref & ? & ?).
      exists tag, attr, element, ref. split; [by left|done].
Qed.

(** What the four pairs of [tags_attrs] select are the references. *)
Lemma reference_tags soup ref :
  reference soup ref ↔
  ref ≠ "" ∧ ∃ tag attr element,
    (tag, attr) ∈ tags_attrs ∧ element ∈ find_all soup tag ∧
    get element attr = Some ref.
Proof.
  unfold reference, tags_attrs, find_all. split.
  - intros [Hn (element & Hin & Hcase)]. split; [done|].
    destruct Hcase as [[Hname Hg]|[[Hname Hg]|[[Hname Hg]|[Hname Hg]]]];
      [exists "a", "href"|exists "img", "src"
      |exists "script", "src"|exists "link", "href"];
      exists element; rewrite list_elem_of_filter, !elem_of_cons;
      split_and!; auto 10.
  - intros [Hn (tag & attr & element & Hp & He & Hg)]. split; [done|].
    apply list_elem_of_filter in He as [Hname Hin].
    exists element. split; [done|].
    rewrite !elem_of_cons in Hp.
    destruct Hp as [[= -> ->]|[[= -> ->]|[[= -> ->]|[[= -> ->]|[]%elem_of_nil]]]];
      tauto.
Qed.

Lemma extract_links_cases soup base_url :
  match extract_links soup base_url with
  | Returned links =>
      (∀ ref, reference soup ref → ∃ u, urljoin base_url ref = Returned u) ∧
      (∀ u, u ∈ links ↔
         ∃ ref, reference soup ref ∧ urljoin base_url ref = Returned u)
  | Raised e => ∃ ref, reference soup ref ∧ urljoin base_url ref = Raised e
  end.
Proof.
  pose proof (for_each_tags_spec soup base_url tags_attrs ∅) as H.
  unfold extract_links. destruct (for_each _ tags_attrs ∅) as [links|e].
  - destruct H as [Hall Hmem]. split.
    + intros ref [Hn (tag & attr & element & ? & ? & ?)]%reference_tags.
      by eapply Hall.
    + intros u. rewrite Hmem. split.
      * intros [[]%not_elem_of_empty|(tag & attr & element & ref & ? & ? & ? & ? & ?)].
        exists ref. split; [|done]. apply reference_tags. split; [done|].
        by exists tag, attr, element.
      * intros (ref & [Hn (tag & attr & element & ? & ? & ?)]%reference_tags & ?).
        right. by exists tag, attr, element, ref.
  - destruct H as (tag & attr & element & ref & ? & ? & ? & ? & ?).
    exists ref. split; [|done]. apply reference_tags. split; [done|].
    by exists tag, attr, element.
Qed.

Section Walk.

Variable set_iter : gset string → list string.
Hypothesis set_iter_perm : ∀ s, set_iter s ≡ₚ elements s.

(** C8. [extract_links] returns a set exactly when [urljoin] joins
    every reference of the page (the non-empty [href] of an [a] or a
    [link], the non-empty [src] of an [img] or a [script]) to
    [base_url]; when [urljoin] rejects one, [extract_links] raises
    what [urljoin] raised on a rejected reference. The set returned
    has as members exactly the URLs that [urljoin] made of the
    references, and walking it meets each member once. *)
Theorem extract_links_spec soup base_url :
  ((∃ links, extract_links soup base_url = Returned links) ↔
   ∀ ref, reference soup ref → ∃ u, urljoin base_url ref = Returned u) ∧
  (∀ e, extract_links soup base_url = Raised e →
     ∃ ref, reference soup ref ∧ urljoin base_url ref = Raised e) ∧
  (∀ links, extract_links soup base_url = Returned links →
     (∀ u, u ∈ links ↔
        ∃ ref, reference soup ref ∧ urljoin base_url ref = Returned u) ∧
     NoDup (set_iter links) ∧
     (∀ u, u ∈ set_iter links ↔ u ∈ links)).
Proof.
  pose proof (extract_links_cases soup base_url) as H.
  destruct (extract_links soup base_url) as [links|e].
  - destruct H as [Hall Hmem]. split_and!.
    + split; [done|]. intros _. by exists links.
    + done.
    + intros links' [= <-]. split_and!; [done| |].
      * rewrite (set_iter_perm links). apply NoDup_elements.
      * intros u. by rewrite (set_iter_perm links), elem_of_elements.
  - destruct H as (ref & Href & Hj). split_and!.
    + split; [by intros [links ?]|].
      intros Hall. destruct (Hall ref Href) as [u Hu]. congruence.
    + intros e' [= <-]. by exists ref.
    + done.
Qed.

End Walk.

End ExtractLinksFacts.

(** ** The aggregation *)

Section Dict.

Context {V : Type}.
Implicit Types (d : list (string * V)) (k : string) (v : V).

Lemma dict_keys_set k v d :
  dict_keys (dict_set k v d) =
    if bool_decide (k ∈ dict_keys d) then dict_keys d else dict_keys d ++ [k].
Proof.
  unfold dict_keys. induction d as [|[k' v'] d IH]; [done|].
  cbn [dict_set]. destruct (decide (k' = k)) as [->|Hk].
  - rewrite bool_decide_eq_true_2 by done.
    rewrite bool_decide_eq_true_2; [done|]. rewrite fmap_cons. by left.
  - rewrite bool_decide_eq_false_2 by done. rewrite !fmap_cons, IH.
    destruct (decide (k ∈ d.*1)) as [Hin|Hin].
    + rewrite !bool_decide_eq_true_2; [done|by right|done].
    + rewrite !bool_decide_eq_false_2; [done| |done].
      intros [?|?]%elem_of_cons; [|done]. by apply Hk.
Qed.

Lemma dict_get_set_eq k v d : dict_get k (dict_set k v d) = Some v.
Proof.
  induction d as [|[k' v'] d IH]; simpl.
  - by rewrite bool_decide_eq_true_2.
  - case_bool_decide as Hk; simpl.
    + by rewrite bool_decide_eq_true_2.
    + by rewrite bool_decide_eq_false_2.
Qed.

Lemma dict_get_set_ne k k' v d :
  k' ≠ k → dict_get k' (dict_set k v d) = dict_get k' d.
Proof.
  intros Hne. induction d as [|[k0 v0] d IH]; simpl.
  - by rewrite bool_decide_eq_false_2.
  - case_bool_decide as Hk; simpl.
    + subst. by rewrite !bool_decide_eq_false_2.
    + by rewrite IH.
Qed.

End Dict.

Lemma elem_of_first_occurrences (urls : list string) (x : string) :
  x ∈ first_occurrences urls ↔ x ∈ urls.
Proof.
  induction urls as [|u urls IH]; simpl; [done|].
  rewrite !elem_of_cons, list_elem_of_filter, IH.
  destruct (decide (x = u)); tauto.
Qed.

Lemma NoDup_first_occurrences (urls : list string) :
  NoDup (first_occurrences urls).
Proof.
  induction urls as [|u urls IH]; simpl; [apply NoDup_nil_2|].
  apply NoDup_cons. split.
  - rewrite list_elem_of_filter. tauto.
  - by apply NoDup_filter.
Qed.

Lemma first_occurrences_snoc (urls : list string) (u : string) :
  first_occurrences (urls ++ [u]) =
    if bool_decide (u ∈ urls) then first_occurrences urls
    else first_occurrences urls ++ [u].
Proof.
  induction urls as [|a urls IH]; simpl; [done|].
  rewrite IH. destruct (decide (u ∈ urls)) as [Hin|Hin].
  - rewrite !bool_decide_eq_true_2; [done|by right|done].
  - rewrite (bool_decide_eq_false_2 (u ∈ urls)) by done.
    rewrite filter_app. destruct (decide (u = a)) as [->|Hne].
    + rewrite bool_decide_eq_true_2 by (by left).
      rewrite filter_cons_False by (by intros ?). simpl.
      by rewrite app_nil_r.
    + rewrite bool_decide_eq_false_2.
      * by rewrite filter_cons_True by done.
      * intros [?|?]%elem_of_cons; [by apply Hne|by apply Hin].
Qed.

Lemma last_record_snoc (url : string) (raw : list LinkRecord) (r : LinkRecord) :
  last_record url (raw ++ [r]) =
    if bool_decide (rec_url r = url) then Some r else last_record url raw.
Proof.
  induction raw as [|a raw IH]; simpl; [done|].
  rewrite IH. by destruct (bool_decide (rec_url r = url)).
Qed.

(** [last_record] finds the record after which the URL does not occur
    again. *)
Lemma last_record_Some (url : string) (raw : list LinkRecord) (r : LinkRecord) :
  last_record url raw = Some r ↔
  ∃ before after, raw = before ++ r :: after ∧ rec_url r = url ∧
                  ∀ x, x ∈ after → rec_url x ≠ url.
Proof.
  induction raw as [|a raw IH] using rev_ind.
  - split; [done|]. intros (before & after & H & _). by destruct before.
  - rewrite last_record_snoc. destruct (decide (rec_url a = url)) as [Ha|Ha].
    + rewrite bool_decide_eq_true_2 by done. split.
      * intros [= <-]. exists raw, []. split_and!; [done..|].
        by intros x ?%elem_of_nil.
      * intros (before & after & Heq & Hu & Hafter).
        destruct after as [|x after _] using rev_ind.
        -- apply app_inj_tail in Heq as [_ ->]. done.
        -- rewrite app_comm_cons, app_assoc in Heq.
           apply app_inj_tail in Heq as [_ ->].
           exfalso. apply (Hafter x); [|done].
           apply elem_of_app. right. by left.
    + rewrite bool_decide_eq_false_2 by done. rewrite IH. split.
      * intros (before & after & -> & Hu & Hafter).
        exists before, (after ++ [a]). split_and!.
        -- by rewrite <- app_assoc.
        -- done.
        -- intros x [?| ->%list_elem_of_singleton]%elem_of_app; [|done].
           by apply Hafter.
      * intros (before & after & Heq & Hu & Hafter).
        destruct after as [|x after _] using rev_ind.
        -- apply app_inj_tail in Heq as [_ ->]. done.
        -- rewrite app_comm_cons, app_assoc in Heq.
           apply app_inj_tail in Heq as [-> ->].
           exists before, after. split_and!; [done..|].
           intros y Hy. apply Hafter, elem_of_app. by left.
Qed.

Lemma last_record_is_Some (url : string) (raw : list LinkRecord) :
  is_Some (last_record url raw) ↔ url ∈ rec_url <$> raw.
Proof.
  induction raw as [|a raw IH] using rev_ind.
  - simpl. split; [by intros [? ?]|by intros ?%elem_of_nil].
  - rewrite last_record_snoc, fmap_app, elem_of_app. simpl.
    rewrite list_elem_of_singleton, <- IH.
    destruct (decide (rec_url a = url)) as [Ha|Ha].
    + rewrite bool_decide_eq_true_2 by done. split; [by right|by eexists].
    + rewrite bool_decide_eq_false_2 by done. split; [by left|].
      intros [?|?]; [done|congruence].
Qed.

Lemma unique_results_snoc (raw : list LinkRecord) (r : LinkRecord) :
  unique_results (raw ++ [r]) =
    dict_set (rec_url r) (rec_status r, rec_ok r, rec_note r) (unique_results raw).
Proof.
  unfold unique_results. rewrite foldl_app. simpl.
  by destruct r as [[[url status_code] ok] note].
Qed.

Lemma unique_results_keys (raw : list LinkRecord) :
  dict_keys (unique_results raw) = first_occurrences (rec_url <$> raw).
Proof.
  induction raw as [|r raw IH] using rev_ind; [done|].
  rewrite unique_results_snoc, dict_keys_set, fmap_app, IH. simpl.
  rewrite first_occurrences_snoc.
  destruct (decide (rec_url r ∈ rec_url <$> raw)) as [Hin|Hin].
  - rewrite !bool_decide_eq_true_2; [done..|]. by apply elem_of_first_occurrences.
  - rewrite !bool_decide_eq_false_2; [done..|]. by rewrite elem_of_first_occurrences.
Qed.

Lemma unique_results_get (raw : list LinkRecord) (url : string) :
  dict_get url (unique_results raw) =
    (λ r, (rec_status r, rec_ok r, rec_note r)) <$> last_record url raw.
Proof.
  induction raw as [|r raw IH] using rev_ind; [done|].
  rewrite unique_results_snoc, last_record_snoc.
  destruct (decide (rec_url r = url)) as [<-|Hne].
  - rewrite dict_get_set_eq. by rewrite bool_decide_eq_true_2.
  - rewrite dict_get_set_ne by done. by rewrite bool_decide_eq_false_2.
Qed.

(** The de-duplicated list: for each URL in order of first occurrence,
    its last record. *)
Lemma dedup_results_last (raw : list LinkRecord) :
  dedup_results raw =
    omap (λ url, last_record url raw) (first_occurrences (rec_url <$> raw)).
Proof.
  unfold dedup_results. cbv zeta. rewrite unique_results_keys.
  apply list_omap_ext, Forall_Forall2_diag, Forall_forall.
  intros url _. rewrite unique_results_get.
  destruct (last_record url raw) as [r|] eqn:Hr; [|done].
  simpl. apply last_record_Some in Hr as (_ & _ & _ & <- & _).
  by destruct r as [[[u sc] ok] note].
Qed.

Lemma broken_count (l : list LinkRecord) :
  broken l = Z.of_nat (length (filter (λ r, rec_ok r = false) l)).
Proof.
  induction l as [|[[[u sc] ok] note] l IH]; [done|].
  cbn [broken foldr]. fold (broken l). rewrite IH. destruct ok; cbn [negb].
  - by rewrite filter_cons_False by done.
  - rewrite filter_cons_True by done. cbn [length]. lia.
Qed.

(** C5. The aggregation keeps one entry per distinct URL: the entries
    are the last records of the URLs of the raw list, in the order in
    which the URLs first occur, and the summary adds up: [working +
    broken = total], [total] is the number of entries and [broken] the
    number of entries whose flag is [False]. *)
Theorem aggregate_correct (raw : list LinkRecord) :
  ∃ deduped n_total n_working n_broken,
    aggregate raw = (deduped, n_total, n_working, n_broken) ∧
    NoDup (rec_url <$> deduped) ∧
    (∀ r, r ∈ deduped ↔ last_record (rec_url r) raw = Some r) ∧
    rec_url <$> deduped = first_occurrences (rec_url <$> raw) ∧
    n_working + n_broken = n_total ∧
    n_total = Z.of_nat (length deduped) ∧
    n_broken = Z.of_nat (length (filter (λ r, rec_ok r = false) deduped)) ∧
    n_working = Z.of_nat (length (filter (λ r, rec_ok r = true) deduped)).
Proof.
  eexists _, _, _, _. split; [reflexivity|].
  assert (rec_url <$> dedup_results raw = first_occurrences (rec_url <$> raw))
    as Hurls.
  { rewrite dedup_results_last, list_fmap_omap.
    assert (∀ urls : list string,
              (∀ u, u ∈ urls → u ∈ rec_url <$> raw) →
              omap (λ u, rec_url <$> last_record u raw) urls = urls) as Hl.
    { induction urls as [|u urls IH]; intros Hin; [done|]. csimpl.
      destruct (proj2 (last_record_is_Some u raw)) as [r Hr];
        [apply Hin; by left|].
      rewrite Hr. csimpl.
      apply last_record_Some in Hr as (_ & _ & _ & -> & _).
      rewrite IH; [done|]. intros v Hv. apply Hin. by right. }
    apply Hl. intros u. by rewrite elem_of_first_occurrences. }
  split_and!.
  - rewrite Hurls. apply NoDup_first_occurrences.
  - intros r. rewrite dedup_results_last, list_elem_of_omap. split.
    + intros (u & _ & Hr).
      by destruct (proj1 (last_record_Some _ _ _) Hr) as (_ & _ & _ & -> & _).
    + intros Hr. exists (rec_url r). split; [|done].
      apply elem_of_first_occurrences, last_record_is_Some. by eexists.
  - done.
  - unfold working. lia.
  - done.
  - apply broken_count.
  - unfold working, total. rewrite broken_count.
    assert (∀ l : list LinkRecord,
              length l = (length (filter (λ r, rec_ok r = true) l) +
                          length (filter (λ r, rec_ok r = false) l))%nat) as Hl.
    { induction l as [|[[[u sc] ok] note] l IH]; [done|]. destruct ok.
      - rewrite filter_cons_True, filter_cons_False by done. simpl. lia.
      - rewrite filter_cons_False, filter_cons_True by done. simpl. lia. }
    rewrite (Hl (dedup_results raw)) at 1. lia.
Qed.


(** ** The examples *)

(** The case of the network location matters, and so does a prefix;
    a bracket without its partner makes [urlparse] raise. *)
Example is_internal_exact :
  is_internal Web.netloc "https://example.com/a" "example.com" = Returned true ∧
  is_internal Web.netloc "/a/b" "example.com" = Returned true ∧
  is_internal Web.netloc "https://Example.com/a" "example.com" = Returned false ∧
  is_internal Web.netloc "https://www.example.com/a" "example.com"
    = Returned false ∧
  is_internal Web.netloc Web.bad "example.com" = Raised ValueError.
Proof. done. Qed.

(** The example of the specification, where the internal page also links
    back to the seed: the crawl returns, each page is requested once and
    the external URL, found on both pages, is probed twice. *)
Example run_example_depth_1 :
  ∃ st', Web.run Web.example_net 1 = Some (Returned tt, st') ∧
         sent st' = [GET Web.seed; HEAD Web.about; GET Web.about;
                     HEAD Web.ext; HEAD Web.ext] ∧
         results st' = [(Web.about, Some 200, true, "");
                        (Web.ext, None, false, "");
                        (Web.ext, None, false, "")] ∧
         aggregate (results st') =
           ([(Web.about, Some 200, true, ""); (Web.ext, None, false, "")],
            2, 1, 1).
Proof. eexists. split_and!; vm_compute; reflexivity. Qed.

Example first_occurrences_example :
  first_occurrences ["b"; "a"; "b"; "c"; "a"] = ["b"; "a"; "c"].
Proof. vm_compute. reflexivity. Qed.

Example aggregate_example :
  aggregate [("u", Some 200, true, ""); ("v", None, false, "");
             ("u", Some 404, false, "")] =
    ([("u", Some 404, false, ""); ("v", None, false, "")], 2, 0, 2).
Proof. vm_compute. reflexivity. Qed.

(** C9. The guard of the loop skips a link exactly when it is in
    [visited], and [visited] holds the URLs requested as pages and
    nothing else: a link that is not in [visited] is probed and
    recorded, whatever was probed before. So a URL can be probed and
    recorded more than once: in the example web the external URL is
    linked from the seed page and from the internal page, and is probed
    and recorded for both. *)
Theorem visited_guard_not_global :
  (∀ netloc urljoin BeautifulSoup set_iter net,
     (∀ base_netloc recurse link rest st,
        link ∈ visited st →
        crawl_links netloc net base_netloc recurse (link :: rest) st =
          crawl_links netloc net base_netloc recurse rest st) ∧
     (∀ fuel base_netloc depth max_depth link rest st r st',
        link ∉ visited st →
        crawl_links netloc net base_netloc
          (λ link, crawl netloc urljoin BeautifulSoup set_iter net fuel link
                     base_netloc depth max_depth) (link :: rest) st
          = Some (r, st') →
        (sent st ++ [HEAD link]) `prefix_of` sent st' ∧
        ∃ status_code ok,
          (results st ++ [(link, status_code, ok, "")])
            `prefix_of` results st') ∧
     (∀ seed base_netloc max_depth,
        ∃ r st', (∀ extra,
                    crawl netloc urljoin BeautifulSoup set_iter net
                      (enough_fuel 0 max_depth + extra) seed base_netloc
                      0 max_depth init_state = Some (r, st')) ∧
                 ∀ u, u ∈ visited st' ↔ u ∈ page_fetches (sent st'))) ∧
  (∃ st', Web.run Web.example_net 1 = Some (Returned tt, st') ∧
          page_fetches (sent st') = [Web.seed; Web.about] ∧
          link_checks (sent st') = [Web.about; Web.ext; Web.ext] ∧
          rec_url <$> results st' = [Web.about; Web.ext; Web.ext]).
Proof.
  split.
  - intros netloc urljoin BeautifulSoup set_iter net. split_and!.
    + intros. by apply crawl_links_skip.
    + intros fuel base_netloc depth max_depth link rest st r st' Hv Hrun.
      eapply crawl_loop_probes in Hrun as [? ?]; [|done]. eauto.
    + intros seed base_netloc max_depth.
      destruct (crawl_run_result netloc urljoin BeautifulSoup set_iter net
                  seed base_netloc 0 max_depth init_state) as (r & st' & Hrun).
      exists r, st'. split; [done|].
      eapply crawl_visited_fetched; [|exact (Hrun 0%nat)].
      intros u. simpl. split; [by intros ?%not_elem_of_empty|by intros ?%elem_of_nil].
  - eexists. split_and!; vm_compute; reflexivity.
Qed.

(** ** Where the claims of the specification fail *)

(** A seed answered with the status 600, which is neither a success
    nor below 400, is no page error: the page is parsed and the crawl
    returns without any record. *)
Lemma crawl_page_error_counterexample :
  requests_get Web.odd_net 0 Web.seed = Returned (mkResponse 600 "") ∧
  Web.run Web.odd_net 0 = Some (Returned tt, Crawled.after_odd_page) ∧
  results Crawled.after_odd_page = [].
Proof. split_and!; vm_compute; reflexivity. Qed.

(** On a page with a hyperlink that [urljoin] joins and one that it
    rejects, [extract_links] returns no set: it raises. *)
Lemma extract_links_spec_counterexample :
  Web.parse (text Crawled.bad_page) = Returned Crawled.bad_soup ∧
  reference Crawled.bad_soup Web.about ∧
  Web.urljoin Web.seed Web.about = Returned Web.about ∧
  reference Crawled.bad_soup Web.bad ∧
  Web.urljoin Web.seed Web.bad = Raised ValueError ∧
  extract_links Web.urljoin Crawled.bad_soup Web.seed = Raised ValueError.
Proof.
  split_and!; try (vm_compute; reflexivity).
  - split; [discriminate|]. exists (Web.anchor Web.about). split.
    + vm_compute. left.
    + left. split; reflexivity.
  - split; [discriminate|]. exists (Web.anchor Web.bad). split.
    + vm_compute. right. left.
    + left. split; reflexivity.
Qed.

(** ** The theorems at work on the example web *)

Lemma check_link_never_raises_witness :
  check_link Web.example_net 0 Web.about = Returned (Some 200, true) ∧
  check_link Web.example_net 0 Web.ext = Returned (None, false) ∧
  (Web.ext ∉ visited init_state) ∧
  crawl_links Web.netloc Web.example_net "example.com"
    (λ _ st, Some (Returned tt, st)) [Web.ext] init_state =
  Some (Returned tt, probe Web.example_net Web.ext init_state).
Proof.
  destruct (check_link_never_raises Web.netloc Web.urljoin Web.parse elements
              Web.example_net 0 Web.about) as (Hok & _).
  destruct (check_link_never_raises Web.netloc Web.urljoin Web.parse elements
              Web.example_net 0 Web.ext) as (_ & Hfail & _ & Hloop & _).
  split_and!.
  - apply Hok. exists (mkResponse 200 ""). split_and!; [reflexivity..|lia].
  - apply (Hfail ConnectionError). reflexivity.
  - apply not_elem_of_empty.
  - rewrite Hloop; [reflexivity|apply not_elem_of_empty].
Defined.

Lemma crawl_page_error_witness :
  0 ≤ 1 ∧ (Web.seed ∉ visited init_state) ∧
  ∃ st', crawl Web.netloc Web.urljoin Web.parse elements Web.dead_net 1
           Web.seed "example.com" 0 1 init_state = Some (Returned tt, st') ∧
         results st' = [(Web.seed, None, false, "PAGE ERROR")] ∧
         sent st' = [GET Web.seed].
Proof.
  split; [lia|]. split; [apply not_elem_of_empty|].
  refine (proj2 (proj1 (crawl_page_error Web.netloc Web.urljoin Web.parse
                          elements Web.dead_net 0 Web.seed "example.com" 0 1
                          init_state _ _) _) eq_refl).
  - lia.
  - apply not_elem_of_empty.
  - right. exists (mkResponse 404 ""). split; [reflexivity|simpl; lia].
Defined.

Lemma crawl_depth_bound_witness :
  crawl Web.netloc Web.urljoin Web.parse elements Web.example_net 0
    Web.about "example.com" 2 1 init_state = Some (Returned tt, init_state) ∧
  crawl Web.netloc Web.urljoin Web.parse elements Web.example_net 1
    Web.seed "example.com" 0 0 init_state =
    Some (Returned tt,
          {| visited := {[Web.seed]} ∪ ∅;
             results := [(Web.about, Some 200, true, "");
                         (Web.ext, None, false, "")];
             sent := [GET Web.seed; HEAD Web.about; HEAD Web.ext] |}).
Proof.
  split.
  - apply (proj1 (crawl_depth_bound Web.netloc Web.urljoin Web.parse elements
                    Web.example_net 0 Web.about "example.com" 2 1 init_state)).
    left. lia.
  - etrans.
    + apply (proj1 (proj2 (crawl_depth_bound Web.netloc Web.urljoin Web.parse
                             elements Web.example_net 0 Web.seed "example.com"
                             0 0 init_state))
               eq_refl (not_elem_of_empty Web.seed)
               Crawled.seed_page [Web.about; Web.ext]).
      * reflexivity.
      * vm_compute. reflexivity.
      * apply Forall_forall. vm_compute. repeat constructor; by eexists.
    + vm_compute. reflexivity.
Defined.

Lemma crawl_depth_zero_witness :
  (∀ s : gset string, elements s ≡ₚ elements s) ∧
  ∃ st', crawl Web.netloc Web.urljoin Web.parse elements Web.example_net 1
           Web.seed "example.com" 0 0 init_state = Some (Returned tt, st') ∧
         page_fetches (sent st') = [Web.seed] ∧
         Web.ext ∈ link_checks (sent st') ∧
         Web.ext ∈ rec_url <$> results st'.
Proof.
  split; [done|].
  destruct (proj1 (crawl_depth_zero Web.netloc Web.urljoin Web.parse elements
                     Web.example_net (λ s, reflexivity (elements s))
                     Web.seed "example.com"))
    as (r & st' & Hrun & Hpages & Hlinks & _).
  destruct (Hlinks Crawled.seed_page
              (mkTag "[document]" ∅ [Web.anchor Web.about; Web.anchor Web.ext])
              (list_to_set [Web.about; Web.ext]))
    as (-> & _ & _ & Hall).
  - reflexivity.
  - vm_compute. reflexivity.
  - vm_compute. reflexivity.
  - intros link Hin%elem_of_list_to_set _. revert link Hin.
    apply Forall_forall. repeat constructor; by eexists.
  - exists st'. split; [exact (Hrun 0%nat)|]. split; [exact Hpages|].
    apply Hall; [|discriminate].
    apply elem_of_list_to_set. right. left.
Defined.

Lemma extract_links_spec_witness :
  (∀ s : gset string, elements s ≡ₚ elements s) ∧
  extract_links Web.urljoin
    (mkTag "[document]" ∅ [Web.anchor Web.about]) Web.seed
    = Returned {[Web.about]} ∧
  NoDup (elements ({[Web.about]} : gset string)) ∧
  ∃ ref, reference (mkTag "[document]" ∅ [Web.anchor Web.about]) ref ∧
         Web.urljoin Web.seed ref = Returned Web.about.
Proof.
  split; [done|].
  assert (extract_links Web.urljoin
            (mkTag "[document]" ∅ [Web.anchor Web.about]) Web.seed
            = Returned {[Web.about]}) as Hret by (vm_compute; reflexivity).
  split; [exact Hret|].
  destruct (proj2 (proj2 (extract_links_spec Web.urljoin elements
                            (λ s, reflexivity (elements s))
                            (mkTag "[document]" ∅ [Web.anchor Web.about])
                            Web.seed)) {[Web.about]} Hret)
    as (Hmem & Hnodup & _).
  split; [exact Hnodup|]. apply Hmem. apply elem_of_singleton. reflexivity.
Defined.

Lemma is_internal_gates_recursion_witness :
  is_internal Web.netloc Web.about "example.com" = Returned true ∧
  (Web.ext ∉ visited init_state) ∧
  is_internal Web.netloc Web.ext "example.com" = Returned false ∧
  crawl_links Web.netloc Web.example_net "example.com"
    (λ _ _, None) [Web.ext] init_state =
  Some (Returned tt, probe Web.example_net Web.ext init_state) ∧
  ∃ r st', Web.run Web.example_net 1 = Some (r, st') ∧
           Web.ext ∉ page_fetches (sent st').
Proof.
  destruct (is_internal_gates_recursion Web.netloc Web.urljoin Web.parse
              elements Web.example_net) as (Hiff & Hext & Hrun & _).
  split_and!.
  - apply Hiff. right. reflexivity.
  - apply not_elem_of_empty.
  - reflexivity.
  - rewrite Hext; [reflexivity|apply not_elem_of_empty|reflexivity].
  - destruct (Hrun Web.seed "example.com" 1) as (r & st' & Hst & _ & Hout).
    exists r, st'. split; [exact (Hst 0%nat)|].
    apply Hout; discriminate.
Defined.

Lemma crawl_terminates_fetching_once_witness :
  (enough_fuel 0 3 ≤ 4)%nat ∧
  ∃ r st', crawl Web.netloc Web.urljoin Web.parse elements Web.example_net 4
             Web.seed "example.com" 0 3 init_state = Some (r, st').
Proof.
  split; [vm_compute; lia|].
  apply (proj1 (crawl_terminates_fetching_once Web.netloc Web.urljoin Web.parse
                  elements Web.example_net)).
  vm_compute. lia.
Defined.

Lemma seed_never_recorded_witness :
  ∃ r st', Web.run Web.example_net 3 = Some (r, st') ∧
           ∀ x, x ∈ results st' → rec_url x ≠ Web.seed.
Proof.
  destruct (seed_never_recorded Web.netloc Web.urljoin Web.parse elements
              Web.example_net Web.seed "example.com" 3)
    as (r & st' & Hrun & Hok & _).
  exists r, st'. split; [exact (Hrun 0%nat)|].
  apply (Hok Crawled.seed_page).
  reflexivity.
Defined.

Lemma visited_guard_not_global_witness :
  crawl_links Web.netloc Web.example_net "example.com"
    (λ _ st, Some (Returned tt, st)) [Web.seed]
    (visited_add Web.seed init_state) =
  Some (Returned tt, visited_add Web.seed init_state).
Proof.
  destruct visited_guard_not_global as [Hall _].
  destruct (Hall Web.netloc Web.urljoin Web.parse elements Web.example_net)
    as (Hskip & _).
  rewrite Hskip; [reflexivity|].
  simpl. apply elem_of_union_l, elem_of_singleton. reflexivity.
Defined.

(** * More on the crawl engine *)

Section CrawlerMore.

Variable netloc : string → outcome string.
Variable urljoin : string → string → outcome string.
Variable BeautifulSoup : string → outcome Tag.
Variable set_iter : gset string → list string.
Variable net : network.

Abbreviation is_internal := (is_internal netloc).
Abbreviation check_result := (check_result net).
Abbreviation fetch_page := (fetch_page net).
Abbreviation page_links := (page_links urljoin BeautifulSoup set_iter).
Abbreviation crawl_links := (crawl_links netloc net).
Abbreviation crawl := (crawl netloc urljoin BeautifulSoup set_iter net).
Abbreviation probe := (probe net).
Abbreviation found_on := (found_on urljoin BeautifulSoup set_iter net).

(** *** Following a property along a crawl

    A sharper form of the invariant principle: the steps know what the
    network answered, [Pre] is what holds when [crawl] is called on a
    URL, and [L] is what the log tells about the links the loop
    walks. The property holds where the call ends, also when it ends
    on an exception. *)
Section Tracking.

Variables (base_netloc : string) (max_depth : Z).
Variable I : state → Prop.
Variable Pre : state → string → Prop.
Variable L : list request → string → Prop.

Hypothesis L_mono : ∀ l l' link, l `prefix_of` l' → L l link → L l' link.
Hypothesis H_fetch : ∀ st url page,
  I st → Pre st url → url ∉ visited st →
  fetch_page (clock st) url = Returned page →
  I (log (GET url) (visited_add url st)) ∧
  ∀ links link, page_links page url = Returned links → link ∈ links →
                L (sent st ++ [GET url]) link.
Hypothesis H_error : ∀ st url e,
  I st → Pre st url → url ∉ visited st →
  fetch_page (clock st) url = Raised e →
  I (results_append (url, None, false, "PAGE ERROR")
       (log (GET url) (visited_add url st))).
Hypothesis H_check : ∀ st link,
  I st → L (sent st) link → link ∉ visited st →
  I (probe link st) ∧
  (is_internal link base_netloc = Returned true → Pre (probe link st) link).

Lemma track_loop fuel depth :
  (∀ url st r st', I st → Pre st url →
     crawl fuel url base_netloc depth max_depth st = Some (r, st') → I st') →
  ∀ links st r st',
    I st → (∀ link, link ∈ links → L (sent st) link) →
    crawl_links base_netloc
      (λ link, crawl fuel link base_netloc depth max_depth) links st
      = Some (r, st') →
    I st'.
Proof.
  intros Hrec links. induction links as [|link rest IH];
    intros st r st' HI HL Hrun.
  - rewrite crawl_links_nil in Hrun. by simplify_eq.
  - destruct (decide (link ∈ visited st)) as [Hv|Hv].
    + rewrite crawl_links_skip in Hrun by done.
      eapply IH; [done| |done]. intros l Hl. apply HL. by right.
    + rewrite crawl_links_probe in Hrun by done.
      destruct (H_check st link HI (HL link ltac:(by left)) Hv) as [HI2 HP].
      assert (∀ l, l ∈ rest → L (sent (probe link st)) l) as HL2.
      { intros l Hl. eapply L_mono; [|apply HL; by right].
        simpl. by apply prefix_app_r. }
      destruct (is_internal link base_netloc) as [[]|e] eqn:Hint;
        [|by eapply IH|by simplify_eq].
      destruct (crawl fuel link _ _ _ _) as [[[[]|e] st3]|] eqn:Hr;
        [| |done].
      * assert (sent (probe link st) `prefix_of` sent st3) as Hgrow.
        { eapply (crawl_log_grows netloc urljoin BeautifulSoup set_iter net
                    fuel link base_netloc depth max_depth (probe link st)
                    (Returned ()) st3 (sent (probe link st)) []);
            [done|apply prefix_nil|exact Hr]. }
        eapply IH; [|intros l Hl; eapply L_mono; [exact Hgrow|by apply HL2]
                    |exact Hrun].
        eapply Hrec; [exact HI2|by apply HP|exact Hr].
      * simplify_eq. eapply Hrec; [exact HI2|by apply HP|exact Hr].
Qed.

Lemma track_crawl fuel : ∀ url depth st r st',
  I st → Pre st url →
  crawl fuel url base_netloc depth max_depth st = Some (r, st') → I st'.
Proof.
  induction fuel as [|fuel IH]; intros url depth st r st' HI HP Hrun.
  - simpl in Hrun. destruct (_ || _); by simplify_eq.
  - destruct (decide (depth > max_depth ∨ url ∈ visited st)) as [Hg|Hg].
    + rewrite crawl_stop in Hrun by done. by simplify_eq.
    + rewrite crawl_go in Hrun by (try lia; tauto). cbv zeta in Hrun.
      destruct (fetch_page _ _) as [page|e] eqn:Hpage.
      * destruct (H_fetch st url page) as [HI1 HL1]; [done|done|tauto|done|].
        destruct (page_links page url) as [links|e] eqn:Hlinks;
          [|by simplify_eq].
        eapply track_loop; [|exact HI1|intros link; by apply HL1|exact Hrun].
        intros. by eapply IH.
      * simplify_eq. eapply H_error; [done|done|tauto|done].
Qed.

End Tracking.

Lemma probe_record_shape t link :
  check_record (link, (check_result t link).1, (check_result t link).2, "").
Proof.
  unfold check_record, check_result, rec_status, rec_ok, rec_note.
  by destruct (requests_head net t link).
Qed.

(** X1. Every record of a crawl from the empty state has one of two
    shapes: [(url, None, False, "PAGE ERROR")], or a probe's record with
    an empty note whose flag says whether a status code below 400 came
    back. So a record is flagged [True] only with a status code below
    400. *)
Theorem crawl_record_shapes seed base_netloc max_depth :
  ∃ r st', (∀ extra, crawl (enough_fuel 0 max_depth + extra) seed base_netloc
                       0 max_depth init_state = Some (r, st')) ∧
           (∀ x, x ∈ results st' → page_error_record x ∨ check_record x) ∧
           (∀ x, x ∈ results st' → rec_ok x = true →
              rec_note x = "" ∧ ∃ code, rec_status x = Some code ∧ code < 400).
Proof.
  destruct (crawl_run_result netloc urljoin BeautifulSoup set_iter net
              seed base_netloc 0 max_depth init_state) as (r & st' & Hrun).
  exists r, st'. split; [done|].
  assert (∀ x, x ∈ results st' → page_error_record x ∨ check_record x) as Hshape.
  { apply Forall_forall.
    eapply (track_crawl base_netloc max_depth
              (λ s, Forall (λ r, page_error_record r ∨ check_record r)
                      (results s))
              (λ _ _, True) (λ _ _, True));
      [..|exact (Hrun 0%nat)]; try done.
    - intros s u e Hs _ _ _. simpl. apply Forall_app. split; [done|].
      apply Forall_singleton. by left.
    - intros s link Hs _ _. split; [|done]. simpl. apply Forall_app.
      split; [done|]. apply Forall_singleton. right. apply probe_record_shape. }
  split; [done|]. intros x Hx Hok.
  destruct (Hshape x Hx) as [(_ & Hf & _)|[Hnote Hst]]; [congruence|].
  split; [done|]. destruct (rec_status x) as [code|]; [|congruence].
  exists code. split; [done|]. rewrite Hok in Hst.
  symmetry in Hst. by apply bool_decide_eq_true in Hst.
Qed.

(** X2. In a crawl from the empty state the records with an empty note
    are, in order, the links probed; the "PAGE ERROR" records are, in
    order, among the pages requested, each at most once; and there are
    no more records than requests. *)
Theorem crawl_records_match_requests seed base_netloc max_depth :
  ∃ r st', (∀ extra, crawl (enough_fuel 0 max_depth + extra) seed base_netloc
                       0 max_depth init_state = Some (r, st')) ∧
         rec_url <$> filter (λ r, rec_note r = "") (results st')
           = link_checks (sent st') ∧
         (rec_url <$> filter (λ r, rec_note r = "PAGE ERROR") (results st'))
           `sublist_of` page_fetches (sent st') ∧
         NoDup (rec_url <$> filter (λ r, rec_note r = "PAGE ERROR")
                              (results st')) ∧
         (length (results st') ≤ length (sent st'))%nat.
Proof.
  destruct (crawl_run_result netloc urljoin BeautifulSoup set_iter net
              seed base_netloc 0 max_depth init_state) as (r & st' & Hrun).
  exists r, st'. split; [done|].
  assert (rec_url <$> filter (λ r, rec_note r = "") (results st')
            = link_checks (sent st') ∧
          (rec_url <$> filter (λ r, rec_note r = "PAGE ERROR") (results st'))
            `sublist_of` page_fetches (sent st') ∧
          (length (results st') ≤ length (sent st'))%nat) as (H1 & H2 & H3).
  { eapply (crawl_preserves netloc urljoin BeautifulSoup set_iter net
              base_netloc max_depth (λ _, True)
              (λ s, rec_url <$> filter (λ r, rec_note r = "") (results s)
                      = link_checks (sent s) ∧
                    (rec_url <$> filter (λ r, rec_note r = "PAGE ERROR")
                                   (results s))
                      `sublist_of` page_fetches (sent s) ∧
                    (length (results s) ≤ length (sent s))%nat));
      [..|exact (Hrun 0%nat)]; try done.
    - intros s u (H1 & H2 & H3) _ _. simpl.
      rewrite link_checks_get, page_fetches_get, length_app. simpl.
      split_and!; [done|by apply sublist_inserts_r|lia].
    - intros s u (H1 & H2 & H3) _ _. simpl.
      rewrite link_checks_get, page_fetches_get, !filter_app, !length_app.
      rewrite (filter_cons_False (λ r, rec_note r = "")) by done.
      rewrite (filter_cons_True (λ r, rec_note r = "PAGE ERROR")) by done.
      rewrite !filter_nil, app_nil_r, fmap_app. simpl.
      split_and!; [done|by apply sublist_app|lia].
    - intros s link sc ok (H1 & H2 & H3) _. simpl.
      rewrite link_checks_head, page_fetches_head, !filter_app, !length_app.
      rewrite (filter_cons_True (λ r, rec_note r = "")) by done.
      rewrite (filter_cons_False (λ r, rec_note r = "PAGE ERROR")) by done.
      rewrite !filter_nil, app_nil_r, fmap_app, H1. simpl.
      split_and!; [done|done|lia]. }
  split_and!; [done|done| |done].
  eapply sublist_NoDup; [|exact H2].
  eapply (crawl_fetch_once netloc urljoin BeautifulSoup set_iter net);
    [| |exact (Hrun 0%nat)]; simpl.
  - apply NoDup_nil_2.
  - by intros u ?%elem_of_nil.
Qed.

Lemma lookup_snoc_Some {A} (l : list A) (x y : A) (i : nat) :
  (l ++ [x]) !! i = Some y →
  l !! i = Some y ∨ (i = length l ∧ y = x).
Proof.
  intros H. destruct (decide (i < length l)%nat) as [Hlt|Hge].
  - left. by rewrite lookup_app_l in H.
  - right. rewrite lookup_app_r in H by lia.
    destruct (i - length l)%nat as [|k] eqn:Hk; simpl in H; [|done].
    simplify_eq. split; [lia|done].
Qed.

(** A call that gets as far as the request sends it first. *)
Lemma crawl_sends_request fuel url base_netloc depth max_depth st r st' :
  depth ≤ max_depth → url ∉ visited st →
  crawl fuel url base_netloc depth max_depth st = Some (r, st') →
  (sent st ++ [GET url]) `prefix_of` sent st' ∧
  results st `prefix_of` results st'.
Proof.
  intros Hd Hv Hrun. destruct fuel as [|fuel].
  - by rewrite crawl_out_of_fuel in Hrun.
  - rewrite crawl_go in Hrun by done. cbv zeta in Hrun.
    destruct (fetch_page _ _) as [page|e].
    + destruct (page_links page url) as [links|e].
      * by eapply (crawl_loop_log_grows netloc urljoin BeautifulSoup set_iter
                     net) in Hrun.
      * by simplify_eq.
    + simplify_eq. simpl. split; [done|]. by apply prefix_app_r.
Qed.

(** X3. In a crawl from the empty state the first request is the seed
    page, and every later page request comes right after a probe of the
    same URL. The answer of the probe plays no part: in the loop, a
    link that is not visited, that [is_internal] classifies as
    internal and that is within the depth bound is probed, recorded
    with whatever the probe gave, and requested as a page right after.
    In [Web.deaf_net] no probe is answered, and the internal page is
    requested all the same. *)
Theorem crawl_fetch_follows_probe seed base_netloc max_depth :
  (∃ r st', (∀ extra, crawl (enough_fuel 0 max_depth + extra) seed base_netloc
                        0 max_depth init_state = Some (r, st')) ∧
            (0 ≤ max_depth → sent st' !! 0%nat = Some (GET seed)) ∧
            (∀ i u, sent st' !! S i = Some (GET u) →
                    sent st' !! i = Some (HEAD u))) ∧
  (∀ fuel depth link rest st r st',
     link ∉ visited st →
     is_internal link base_netloc = Returned true →
     depth ≤ max_depth →
     crawl_links base_netloc
       (λ link, crawl fuel link base_netloc depth max_depth) (link :: rest) st
       = Some (r, st') →
     (sent st ++ [HEAD link; GET link]) `prefix_of` sent st' ∧
     (results st ++ [(link, (check_result (clock st) link).1,
                      (check_result (clock st) link).2, "")])
       `prefix_of` results st') ∧
  (requests_head Web.deaf_net 1 Web.about = Raised Timeout ∧
   Web.run Web.deaf_net 1 = Some (Returned tt, Crawled.deaf_depth_1)).
Proof.
  split; [|split; [|split; vm_compute; reflexivity]].
  - destruct (crawl_run_result netloc urljoin BeautifulSoup set_iter net
                seed base_netloc 0 max_depth init_state) as (r & st' & Hrun).
    exists r, st'. split; [done|]. split.
    + intros Hd. specialize (Hrun 0%nat).
      eapply (prefix_lookup_Some [GET seed]); [done|].
      by eapply (crawl_sends_request _ _ _ _ _ init_state) in Hrun as [? _].
    + eapply (track_crawl base_netloc max_depth
                (λ s, ∀ i u, sent s !! S i = Some (GET u) →
                             sent s !! i = Some (HEAD u))
                (λ s u, sent s = [] ∨ last (sent s) = Some (HEAD u))
                (λ _ _, True));
        [..|exact (Hrun 0%nat)]; try done.
      * intros s u page Hs HP _ _. split; [|done]. simpl. intros i v Hi.
        apply lookup_snoc_Some in Hi as [Hi|[Hi [= ->]]].
        -- rewrite lookup_app_l by (apply lookup_lt_Some in Hi; lia).
           by apply Hs.
        -- destruct HP as [HP|HP]; [rewrite HP in Hi; simpl in Hi; lia|].
           rewrite last_lookup, <- Hi in HP. simpl in HP.
           rewrite lookup_app_l by lia. done.
      * intros s u e Hs HP _ _. simpl. intros i v Hi.
        apply lookup_snoc_Some in Hi as [Hi|[Hi [= ->]]].
        -- rewrite lookup_app_l by (apply lookup_lt_Some in Hi; lia).
           by apply Hs.
        -- destruct HP as [HP|HP]; [rewrite HP in Hi; simpl in Hi; lia|].
           rewrite last_lookup, <- Hi in HP. simpl in HP.
           rewrite lookup_app_l by lia. done.
      * intros s link Hs _ _. simpl. split.
        -- intros i v Hi. apply lookup_snoc_Some in Hi as [Hi|[_ [=]]].
           rewrite lookup_app_l by (apply lookup_lt_Some in Hi; lia).
           by apply Hs.
        -- intros _. right. apply last_snoc.
      * by left.
  - intros fuel depth link rest st r st' Hv Hint Hd Hrun.
    rewrite crawl_links_probe in Hrun by done. rewrite Hint in Hrun.
    change (results st ++ _) with (results (probe link st)).
    change (sent st ++ [HEAD link; GET link])
      with (sent st ++ [HEAD link] ++ [GET link]).
    rewrite app_assoc.
    change (sent st ++ [HEAD link]) with (sent (probe link st)).
    destruct (crawl fuel link _ _ _ _) as [[[[]|e] st3]|] eqn:Hr; [| |done].
    + eapply crawl_sends_request in Hr as [? ?]; [|done..].
      by eapply (crawl_loop_log_grows netloc urljoin BeautifulSoup set_iter
                   net) in Hrun.
    + simplify_eq. by eapply crawl_sends_request in Hr.
Qed.

(** X4. A crawl from the empty state probes nothing but links it
    extracted: every link probed is among the links of a page that was
    requested before and served without an error. *)
Theorem crawl_probes_extracted_links seed base_netloc max_depth :
  ∃ r st', (∀ extra, crawl (enough_fuel 0 max_depth + extra) seed base_netloc
                       0 max_depth init_state = Some (r, st')) ∧
           ∀ i u, sent st' !! i = Some (HEAD u) →
                  found_on (take i (sent st')) u.
Proof.
  destruct (crawl_run_result netloc urljoin BeautifulSoup set_iter net
              seed base_netloc 0 max_depth init_state) as (r & st' & Hrun).
  exists r, st'. split; [done|].
  eapply (track_crawl base_netloc max_depth
            (λ s, ∀ i u, sent s !! i = Some (HEAD u) →
                         found_on (take i (sent s)) u)
            (λ _ _, True) found_on);
    [..|exact (Hrun 0%nat)]; try done.
  - intros l l' link Hpre (t & p & page & links & Hl & Hf & Hin).
    exists t, p, page, links. split; [|done]. by eapply prefix_lookup_Some.
  - intros s u page Hs _ _ Hpage. simpl. split.
    + intros i v Hi. apply lookup_snoc_Some in Hi as [Hi|[_ [=]]].
      rewrite take_app_le by (apply lookup_lt_Some in Hi; lia). by apply Hs.
    + intros links link Hlinks Hin. exists (length (sent s)), u, page, links.
      split; [|done]. by rewrite lookup_app_r, Nat.sub_diag by lia.
  - intros s u e Hs _ _ _. simpl. intros i v Hi.
    apply lookup_snoc_Some in Hi as [Hi|[_ [=]]].
    rewrite take_app_le by (apply lookup_lt_Some in Hi; lia). by apply Hs.
  - intros s link Hs HL _. simpl. split; [|done]. intros i v Hi.
    apply lookup_snoc_Some in Hi as [Hi|[-> [= ->]]].
    + rewrite take_app_le by (apply lookup_lt_Some in Hi; lia). by apply Hs.
    + by rewrite take_app_length.
Qed.

(** X5. A call of [crawl] only adds: the records and the requests it
    was given stay where they were, in front of the new ones, and no
    URL leaves [visited]. *)
Theorem crawl_only_appends fuel url base_netloc depth max_depth st r st' :
  crawl fuel url base_netloc depth max_depth st = Some (r, st') →
  results st `prefix_of` results st' ∧
  sent st `prefix_of` sent st' ∧
  visited st ⊆ visited st'.
Proof.
  intros Hrun.
  destruct (crawl_log_grows netloc urljoin BeautifulSoup set_iter net
              fuel url base_netloc depth max_depth st r st'
              (sent st) (results st)) as [? ?]; [done..|].
  split_and!; [done..|]. by eapply crawl_visited_mono.
Qed.

(** X6. Calling [crawl] again on the same URL with the state it left
    does nothing: the URL is then in [visited], unless the depth was
    over the bound, and then the first call did nothing either. *)
Theorem crawl_twice fuel fuel' url base_netloc depth max_depth st r st' :
  crawl fuel url base_netloc depth max_depth st = Some (r, st') →
  crawl fuel' url base_netloc depth max_depth st' = Some (Returned tt, st') ∧
  (depth ≤ max_depth → url ∈ visited st').
Proof.
  intros Hrun.
  assert (depth ≤ max_depth → url ∈ visited st') as Hin.
  { intros Hd. destruct (decide (url ∈ visited st)) as [Hv|Hv].
    - by eapply crawl_visited_mono.
    - destruct fuel as [|fuel].
      + by rewrite crawl_out_of_fuel in Hrun.
      + rewrite crawl_go in Hrun by done. cbv zeta in Hrun.
        destruct (fetch_page _ _) as [page|e].
        * destruct (page_links page url) as [links|e].
          -- eapply (crawl_loop_preserves netloc urljoin BeautifulSoup set_iter
                       net base_netloc max_depth (λ _, True)
                       (λ s, url ∈ visited s)) in Hrun as [? _]; try done.
             ++ intros s u ? _ _. simpl. apply elem_of_union. by right.
             ++ intros s u ? _ _. simpl. apply elem_of_union. by right.
             ++ simpl. apply elem_of_union. left. by apply elem_of_singleton.
          -- simplify_eq. simpl. apply elem_of_union. left.
             by apply elem_of_singleton.
        * simplify_eq. simpl. apply elem_of_union. left.
          by apply elem_of_singleton. }
  split; [|done]. apply crawl_stop.
  destruct (decide (depth ≤ max_depth)); [right; auto|left; lia].
Qed.

(** X7. Once a URL has been requested as a page it is not probed any
    more: in the log of a crawl from the empty state every probe of a
    URL comes before the request of that URL as a page. *)
Theorem crawl_no_probe_after_fetch seed base_netloc max_depth :
  ∃ r st', (∀ extra, crawl (enough_fuel 0 max_depth + extra) seed base_netloc
                       0 max_depth init_state = Some (r, st')) ∧
         ∀ i j u, sent st' !! i = Some (GET u) →
                  sent st' !! j = Some (HEAD u) → (j < i)%nat.
Proof.
  destruct (crawl_run_result netloc urljoin BeautifulSoup set_iter net
              seed base_netloc 0 max_depth init_state) as (r & st' & Hrun).
  exists r, st'. split; [done|].
  eapply (crawl_preserves netloc urljoin BeautifulSoup set_iter net
            base_netloc max_depth (λ _, True)
            (λ s, (∀ i u, sent s !! i = Some (GET u) → u ∈ visited s) ∧
                  ∀ i j u, sent s !! i = Some (GET u) →
                           sent s !! j = Some (HEAD u) → (j < i)%nat));
    [..|exact (Hrun 0%nat)]; try done.
  - intros s u [Hv Hs] _ Hu. simpl. split.
    + intros i v Hi. apply elem_of_union.
      apply lookup_snoc_Some in Hi as [Hi|[_ [= ->]]];
        [right; by eapply Hv|left; by apply elem_of_singleton].
    + intros i j v Hi Hj.
      apply lookup_snoc_Some in Hj as [Hj|[_ [=]]].
      apply lookup_snoc_Some in Hi as [Hi|[-> _]]; [by eapply Hs|].
      by apply lookup_lt_Some in Hj.
  - intros s u [Hv Hs] _ Hu. simpl. split.
    + intros i v Hi. apply elem_of_union.
      apply lookup_snoc_Some in Hi as [Hi|[_ [= ->]]];
        [right; by eapply Hv|left; by apply elem_of_singleton].
    + intros i j v Hi Hj.
      apply lookup_snoc_Some in Hj as [Hj|[_ [=]]].
      apply lookup_snoc_Some in Hi as [Hi|[-> _]]; [by eapply Hs|].
      by apply lookup_lt_Some in Hj.
  - intros s link sc ok [Hv Hs] Hl. simpl. split.
    + intros i v Hi. apply lookup_snoc_Some in Hi as [Hi|[_ [=]]].
      by eapply Hv.
    + intros i j v Hi Hj.
      apply lookup_snoc_Some in Hi as [Hi|[_ [=]]].
      apply lookup_snoc_Some in Hj as [Hj|[_ [= ->]]]; [by eapply Hs|].
      exfalso. apply Hl. by eapply Hv.
Qed.

End CrawlerMore.

(** * More on the link extractor *)

Lemma size_list_to_set_le (l : list string) :
  (size (list_to_set l : gset string) ≤ length l)%nat.
Proof.
  induction l as [|x l IH].
  - by rewrite list_to_set_nil, size_empty.
  - rewrite list_to_set_cons, size_union_alt, size_singleton. cbn [length].
    assert (list_to_set l ∖ {[x]} ⊆ (list_to_set l : gset string)) as Hsub
      by (intros y [? _]%elem_of_difference; done).
    apply subseteq_size in Hsub. lia.
Qed.

Lemma length_omap_le {A B} (f : A → option B) (l : list A) :
  (length (omap f l) ≤ length l)%nat.
Proof.
  induction l as [|x l IH]; csimpl; [done|].
  destruct (f x); simpl; lia.
Qed.

(** X8. A page yields at most as many links as it has [a], [img],
    [script] and [link] tags; a page without such tags yields none,
    and [extract_links] returns on it. *)
Theorem extract_links_size (urljoin : string → string → outcome string)
    (soup : Tag) (base_url : string) :
  (∀ links, extract_links urljoin soup base_url = Returned links →
     (size links ≤
      length (filter (λ e, name e ∈ ["a"; "img"; "script"; "link"])
                     (descendants soup)))%nat) ∧
  (filter (λ e, name e ∈ ["a"; "img"; "script"; "link"]) (descendants soup) = []
   → extract_links urljoin soup base_url = Returned ∅).
Proof.
  set (tagged := filter (λ e, name e ∈ ["a"; "img"; "script"; "link"])
                        (descendants soup)).
  pose (read := λ e : Tag,
          attr ← (if decide (name e = "a") then Some "href"
                  else if decide (name e = "img") then Some "src"
                  else if decide (name e = "script") then Some "src"
                  else Some "href");
          ref ← get e attr;
          if decide (ref ≠ "") then
            match urljoin base_url ref with
            | Returned u => Some u
            | Raised _ => None
            end
          else None).
  assert (∀ ref, reference soup ref →
            ∃ e, e ∈ tagged ∧
                 ∀ u, urljoin base_url ref = Returned u → read e = Some u)
    as Htagged.
  { intros ref [Hn (e & Hin & Hcase)]. exists e. split.
    - apply list_elem_of_filter. split; [|done]. rewrite !elem_of_cons.
      destruct Hcase as [[-> _]|[[-> _]|[[-> _]|[-> _]]]]; tauto.
    - intros u Hu. unfold read.
      destruct Hcase as [[Hname Hg]|[[Hname Hg]|[[Hname Hg]|[Hname Hg]]]];
        rewrite Hname; simpl; rewrite Hg; simpl;
        rewrite decide_True by done; by rewrite Hu. }
  pose proof (extract_links_cases urljoin soup base_url) as Hcases.
  split.
  - intros links Hret. rewrite Hret in Hcases. destruct Hcases as [_ Hmem].
    assert (links ⊆ list_to_set (omap read tagged)) as Hsub.
    { intros u (ref & Href & Hu)%Hmem.
      apply elem_of_list_to_set, list_elem_of_omap.
      destruct (Htagged ref Href) as (e & He & Hread).
      exists e. split; [done|]. by apply Hread. }
    etrans; [by apply subseteq_size|].
    etrans; [apply size_list_to_set_le|apply length_omap_le].
  - intros Hnil.
    assert (∀ ref, ¬ reference soup ref) as Hnone.
    { intros ref Href. destruct (Htagged ref Href) as (e & He & _).
      rewrite Hnil in He. by apply elem_of_nil in He. }
    destruct (extract_links urljoin soup base_url) as [links|e].
    + destruct Hcases as [_ Hmem]. f_equal.
      apply leibniz_equiv. intros u. split.
      * intros (ref & Href & _)%Hmem. by apply Hnone in Href.
      * by intros ?%not_elem_of_empty.
    + destruct Hcases as (ref & Href & _). by apply Hnone in Href.
Qed.

(** * More on the aggregation *)

Lemma dedup_results_urls (raw : list LinkRecord) :
  rec_url <$> dedup_results raw = first_occurrences (rec_url <$> raw).
Proof.
  rewrite dedup_results_last, list_fmap_omap.
  assert (∀ urls : list string,
            (∀ u, u ∈ urls → u ∈ rec_url <$> raw) →
            omap (λ u, rec_url <$> last_record u raw) urls = urls) as Hl.
  { induction urls as [|u urls IH]; intros Hin; [done|]. csimpl.
    destruct (proj2 (last_record_is_Some u raw)) as [r Hr];
      [apply Hin; by left|].
    rewrite Hr. csimpl.
    apply last_record_Some in Hr as (_ & _ & _ & -> & _).
    rewrite IH; [done|]. intros v Hv. apply Hin. by right. }
  apply Hl. intros u. by rewrite elem_of_first_occurrences.
Qed.

Lemma filter_all {A} (P : A → Prop) `{∀ x, Decision (P x)} (l : list A) :
  (∀ x, x ∈ l → P x) → filter P l = l.
Proof.
  induction l as [|x l IH]; intros Hall; [done|].
  rewrite filter_cons_True by (apply Hall; by left).
  rewrite IH; [done|]. intros y Hy. apply Hall. by right.
Qed.

Lemma first_occurrences_NoDup (urls : list string) :
  NoDup urls → first_occurrences urls = urls.
Proof.
  induction 1 as [|u urls Hu Hnd IH]; simpl; [done|].
  rewrite IH. f_equal. apply filter_all. by intros x Hx ->.
Qed.

Lemma last_record_NoDup (raw : list LinkRecord) (r : LinkRecord) :
  NoDup (rec_url <$> raw) → r ∈ raw → last_record (rec_url r) raw = Some r.
Proof.
  intros Hnd (before & after & ->)%list_elem_of_split.
  apply last_record_Some. exists before, after. split_and!; [done..|].
  intros x Hx Heq.
  rewrite fmap_app, fmap_cons in Hnd.
  apply NoDup_app in Hnd as (_ & _ & Hnd).
  apply NoDup_cons in Hnd as [Hnot _]. apply Hnot.
  rewrite <- Heq. by apply list_elem_of_fmap_2.
Qed.

Lemma dedup_results_NoDup (l : list LinkRecord) :
  NoDup (rec_url <$> l) → dedup_results l = l.
Proof.
  intros Hnd. rewrite dedup_results_last, first_occurrences_NoDup by done.
  assert (∀ k : list LinkRecord,
            (∀ r, r ∈ k → r ∈ l) →
            omap (λ u, last_record u l) (rec_url <$> k) = k) as Hk.
  { induction k as [|r k IH]; intros Hin; [done|]. csimpl.
    rewrite last_record_NoDup by (done || apply Hin; by left).
    rewrite IH; [done|]. intros x Hx. apply Hin. by right. }
  by apply Hk.
Qed.

(** X9. A result list in which no URL occurs twice is left as it is by
    the de-duplication, and de-duplicating twice is the same as
    once. *)
Theorem dedup_results_fixed (raw : list LinkRecord) :
  (NoDup (rec_url <$> raw) → dedup_results raw = raw) ∧
  dedup_results (dedup_results raw) = dedup_results raw.
Proof.
  split; [apply dedup_results_NoDup|]. apply dedup_results_NoDup.
  rewrite dedup_results_urls. apply NoDup_first_occurrences.
Qed.

(** X10. The total of the summary is the number of distinct URLs in the
    raw result list, never more than the number of records; the
    de-duplicated list has the URLs of the raw list, no more and no
    fewer; and [broken] and [working] lie between 0 and the total. *)
Theorem summary_counts_urls (raw : list LinkRecord) :
  ∃ deduped n_total n_working n_broken,
    aggregate raw = (deduped, n_total, n_working, n_broken) ∧
    n_total = Z.of_nat (size (list_to_set (rec_url <$> raw) : gset string)) ∧
    n_total ≤ Z.of_nat (length raw) ∧
    (∀ u, u ∈ rec_url <$> deduped ↔ u ∈ rec_url <$> raw) ∧
    0 ≤ n_broken ≤ n_total ∧ 0 ≤ n_working ≤ n_total.
Proof.
  eexists _, _, _, _. split; [reflexivity|].
  assert (length (dedup_results raw) =
          size (list_to_set (rec_url <$> raw) : gset string)) as Hlen.
  { rewrite <- (length_fmap rec_url), dedup_results_urls.
    rewrite <- (size_list_to_set (C := gset string))
      by apply NoDup_first_occurrences.
    f_equal. apply set_eq. intros u.
    by rewrite !elem_of_list_to_set, elem_of_first_occurrences. }
  pose proof (length_filter (λ r, rec_ok r = false) (dedup_results raw)).
  split_and!.
  - unfold total. by rewrite Hlen.
  - unfold total. rewrite Hlen.
    pose proof (size_list_to_set_le (rec_url <$> raw)) as Hle.
    rewrite length_fmap in Hle. lia.
  - intros u. by rewrite dedup_results_urls, elem_of_first_occurrences.
  - rewrite broken_count. lia.
  - rewrite broken_count. unfold total. lia.
  - unfold working, total. rewrite broken_count. lia.
  - unfold working, total. rewrite broken_count. lia.
Qed.

(** * The crawl with its collaborators *)

Lemma safe_notify progress_bar live_log message u :
  safe progress_bar u → safe progress_bar (notify live_log message u).
Proof. unfold safe, notify. by destruct live_log. Qed.

Lemma progress_update_safe progress_bar u :
  safe progress_bar u →
  (progress_update progress_bar u).1 = Done tt ∧
  safe progress_bar (progress_update progress_bar u).2.
Proof.
  unfold safe, progress_update. intros Hs.
  destruct progress_bar; [|done].
  destruct (progress_state u) as [[current total]|] eqn:Hp.
  - rewrite bool_decide_eq_false_2 by (by eapply Hs). simpl.
    split; [done|]. intros _ c t [= <- <-]. by eapply Hs.
  - simpl. split; [done|]. intros _ c t Hc. congruence.
Qed.

Lemma safe_replay progress_bar live_log u r :
  safe progress_bar u → safe progress_bar (replay progress_bar live_log u r).
Proof.
  intros Hs. unfold replay. case_bool_decide.
  - by apply safe_notify.
  - by apply progress_update_safe, safe_notify.
Qed.

Lemma safe_foldl_replay progress_bar live_log new : ∀ u,
  safe progress_bar u →
  safe progress_bar (foldl (replay progress_bar live_log) u new).
Proof.
  induction new as [|r new IH]; intros u Hs; [done|].
  simpl. by apply IH, safe_replay.
Qed.

Section CrawlerInterfaceFacts.

Variable netloc : string → outcome string.
Variable urljoin : string → string → outcome string.
Variable BeautifulSoup : string → outcome Tag.
Variable set_iter : gset string → list string.
Variable net : network.
Variables (progress_bar live_log : bool).

Abbreviation is_internal := (is_internal netloc).
Abbreviation check_result := (check_result net).
Abbreviation fetch_page := (fetch_page net).
Abbreviation page_links := (page_links urljoin BeautifulSoup set_iter).
Abbreviation crawl_links := (crawl_links netloc net).
Abbreviation crawl := (crawl netloc urljoin BeautifulSoup set_iter net).
Abbreviation crawl_links_ui :=
  (crawl_links_ui netloc net progress_bar live_log).
Abbreviation crawl_ui :=
  (crawl_ui netloc urljoin BeautifulSoup set_iter net progress_bar live_log).
Abbreviation replay := (replay progress_bar live_log).
Abbreviation follows := (follows progress_bar live_log).
Abbreviation safe := (safe progress_bar).

Lemma crawl_ui_stop fuel url base_netloc depth max_depth st u :
  depth > max_depth ∨ url ∈ visited st →
  crawl_ui fuel url base_netloc depth max_depth st u = Some (Done tt, st, u).
Proof.
  intros H. destruct fuel; simpl;
    rewrite (orb_true_intro (bool_decide _) (bool_decide _)); try done;
    destruct H; [left|right|left|right]; by apply bool_decide_eq_true.
Qed.

Lemma crawl_ui_out_of_fuel url base_netloc depth max_depth st u :
  depth ≤ max_depth → url ∉ visited st →
  crawl_ui 0 url base_netloc depth max_depth st u = None.
Proof.
  intros Hd Hv. simpl.
  rewrite (bool_decide_eq_false_2 (depth > max_depth)) by lia.
  by rewrite (bool_decide_eq_false_2 (url ∈ visited st)).
Qed.

Lemma crawl_ui_go fuel url base_netloc depth max_depth st u :
  depth ≤ max_depth → url ∉ visited st →
  crawl_ui (S fuel) url base_netloc depth max_depth st u =
    let st1 := log (GET url) (visited_add url st) in
    match fetch_page (clock st) url with
    | Raised _ =>
        Some (Done tt, results_append (url, None, false, "PAGE ERROR") st1,
              notify live_log (page_error_message url) u)
    | Returned page =>
        match page_links page url with
        | Raised e => Some (Failed (Exception e), st1, u)
        | Returned links =>
            crawl_links_ui base_netloc
              (λ link, crawl_ui fuel link base_netloc (depth + 1) max_depth)
              links st1 u
        end
    end.
Proof.
  intros Hd Hv. simpl.
  rewrite (bool_decide_eq_false_2 (depth > max_depth)) by lia.
  by rewrite (bool_decide_eq_false_2 (url ∈ visited st)).
Qed.

Lemma crawl_links_ui_skip base_netloc recurse link rest st u :
  link ∈ visited st →
  crawl_links_ui base_netloc recurse (link :: rest) st u =
    crawl_links_ui base_netloc recurse rest st u.
Proof. intros H. simpl. by rewrite bool_decide_eq_true_2. Qed.

Lemma crawl_links_ui_check base_netloc recurse link rest st u :
  link ∉ visited st →
  crawl_links_ui base_netloc recurse (link :: rest) st u =
    let '(status_code, ok) := check_result (clock st) link in
    let st2 := results_append (link, status_code, ok, "")
                 (log (HEAD link) st) in
    let u1 := notify live_log (check_message link status_code ok) u in
    match progress_update progress_bar u1 with
    | (Failed f, u2) => Some (Failed f, st2, u2)
    | (Done _, u2) =>
        match is_internal link base_netloc with
        | Raised e => Some (Failed (Exception e), st2, u2)
        | Returned true =>
            match recurse link st2 u2 with
            | Some (Done _, st3, u3) =>
                crawl_links_ui base_netloc recurse rest st3 u3
            | Some (Failed f, st3, u3) => Some (Failed f, st3, u3)
            | None => None
            end
        | Returned false => crawl_links_ui base_netloc recurse rest st2 u2
        end
    end.
Proof.
  intros H. simpl. rewrite bool_decide_eq_false_2 by done.
  rewrite check_link_returns. by destruct (check_result _ _).
Qed.

Lemma follows_loop base_netloc recurse recurse_ui :
  (∀ link st u, safe u → follows (recurse link st) (recurse_ui link st u) st u) →
  ∀ links st u, safe u →
    follows (crawl_links base_netloc recurse links st)
            (crawl_links_ui base_netloc recurse_ui links st u) st u.
Proof.
  intros Hrec links. induction links as [|link rest IH]; intros st u Hs.
  - right. exists (Returned tt), st, []. by rewrite app_nil_r.
  - destruct (decide (link ∈ visited st)) as [Hv|Hv].
    + rewrite crawl_links_skip, crawl_links_ui_skip by done. by apply IH.
    + rewrite crawl_links_check, crawl_links_ui_check by done.
      destruct (check_result (clock st) link) as [sc ok]. cbv zeta.
      set (st2 := results_append (link, sc, ok, "") (log (HEAD link) st)).
      set (u1 := notify live_log (check_message link sc ok) u).
      destruct (progress_update_safe progress_bar u1) as [Hdone Hs2];
        [by apply safe_notify|].
      destruct (progress_update progress_bar u1) as [e u2] eqn:Hpu.
      simpl in Hdone, Hs2. subst e.
      assert (u2 = replay u (link, sc, ok, "")) as Hu2.
      { unfold replay. rewrite bool_decide_eq_false_2 by done.
        unfold rec_url, rec_status, rec_ok. cbn [fst snd].
        change (notify live_log (check_message link sc ok) u) with u1.
        by rewrite Hpu. }
      assert (∀ X Y st3 u3,
                follows X Y st3 u3 →
                ∀ mid, results st3 = results st2 ++ mid →
                       u3 = foldl replay u2 mid →
                follows X Y st u) as Hglue.
      { intros X Y st3 u3 [[-> ->]|(r & st' & new & -> & Hres & ->)] mid Hmid ->;
          [by left|].
        right. exists r, st', ((link, sc, ok, "") :: mid ++ new).
        split; [done|]. split.
        - rewrite Hres, Hmid. simpl. by rewrite <- !app_assoc.
        - simpl. by rewrite foldl_app, <- Hu2. }
      destruct (is_internal link base_netloc) as [[]|e].
      * destruct (Hrec link st2 u2 Hs2)
          as [[-> ->]|(r & st3 & mid & Hr & Hres & ->)]; [by left|].
        rewrite Hr. destruct r as [[]|e]; simpl.
        -- eapply Hglue; [|done|done].
           apply IH. by apply safe_foldl_replay.
        -- right. exists (Raised e), st3, ((link, sc, ok, "") :: mid).
           split; [done|]. split.
           ++ rewrite Hres. simpl. by rewrite <- app_assoc.
           ++ simpl. by rewrite <- Hu2.
      * apply (Hglue _ _ st2 u2 (IH st2 u2 Hs2) []); [|done].
        by rewrite app_nil_r.
      * right. exists (Raised e), st2, [(link, sc, ok, "")].
        split; [done|]. split; [done|]. simpl. by rewrite <- Hu2.
Qed.

Lemma follows_crawl fuel : ∀ url base_netloc depth max_depth st u,
  safe u →
  follows (crawl fuel url base_netloc depth max_depth st)
          (crawl_ui fuel url base_netloc depth max_depth st u) st u.
Proof.
  induction fuel as [|fuel IH]; intros url base_netloc depth max_depth st u Hs.
  - destruct (decide (depth > max_depth ∨ url ∈ visited st)) as [Hg|Hg].
    + rewrite crawl_stop, crawl_ui_stop by done.
      right. exists (Returned tt), st, []. by rewrite app_nil_r.
    + rewrite crawl_out_of_fuel, crawl_ui_out_of_fuel by (try lia; tauto).
      by left.
  - destruct (decide (depth > max_depth ∨ url ∈ visited st)) as [Hg|Hg].
    + rewrite crawl_stop, crawl_ui_stop by done.
      right. exists (Returned tt), st, []. by rewrite app_nil_r.
    + rewrite crawl_go, crawl_ui_go by (try lia; tauto). cbv zeta.
      destruct (fetch_page (clock st) url) as [page|e].
      * destruct (page_links page url) as [links|e].
        -- destruct (follows_loop base_netloc
                       (λ link, crawl fuel link base_netloc (depth + 1) max_depth)
                       (λ link, crawl_ui fuel link base_netloc (depth + 1) max_depth)
                       ltac:(intros; by apply IH)
                       links (log (GET url) (visited_add url st)) u Hs)
             as [[-> ->]|(r & st' & new & -> & Hres & ->)]; [by left|].
           right. by exists r, st', new.
        -- right. exists (Raised e), (log (GET url) (visited_add url st)), [].
           split; [done|]. split; [|done]. simpl. by rewrite app_nil_r.
      * right. eexists (Returned tt), _, [(url, None, false, "PAGE ERROR")].
        split; [done|]. split; [done|]. simpl. unfold replay.
        by rewrite bool_decide_eq_true_2.
Qed.

End CrawlerInterfaceFacts.

Section CollaboratorsFacts.

Variable netloc : string → outcome string.
Variable urljoin : string → string → outcome string.
Variable BeautifulSoup : string → outcome Tag.
Variable set_iter : gset string → list string.
Variable net : network.
Variables (progress_bar live_log : bool).

Abbreviation fetch_page := (fetch_page net).
Abbreviation check_result := (check_result net).
Abbreviation page_links := (page_links urljoin BeautifulSoup set_iter).
Abbreviation crawl := (crawl netloc urljoin BeautifulSoup set_iter net).
Abbreviation crawl_links_ui :=
  (crawl_links_ui netloc net progress_bar live_log).
Abbreviation crawl_ui :=
  (crawl_ui netloc urljoin BeautifulSoup set_iter net progress_bar live_log).
Abbreviation replay := (replay progress_bar live_log).
Abbreviation safe := (safe progress_bar).

(** Probed links and records that are not page errors go together. *)
Lemma crawl_probes_counted fuel url base_netloc depth max_depth st r st' :
  crawl fuel url base_netloc depth max_depth st = Some (r, st') →
  ∃ n, length (filter (λ x, rec_note x ≠ "PAGE ERROR") (results st')) =
         (length (filter (λ x, rec_note x ≠ "PAGE ERROR") (results st)) + n)%nat ∧
       length (link_checks (sent st')) =
         (length (link_checks (sent st)) + n)%nat.
Proof.
  intros Hrun.
  eapply (crawl_preserves netloc urljoin BeautifulSoup set_iter net
            base_netloc max_depth (λ _, True)
            (λ s, ∃ n,
               length (filter (λ x, rec_note x ≠ "PAGE ERROR") (results s)) =
                 (length (filter (λ x, rec_note x ≠ "PAGE ERROR") (results st))
                  + n)%nat ∧
               length (link_checks (sent s)) =
                 (length (link_checks (sent st)) + n)%nat))
    in Hrun as [? _]; try done.
  - intros s u (n & H1 & H2) _ _. exists n. simpl.
    by rewrite link_checks_get.
  - intros s u (n & H1 & H2) _ _. exists n. simpl.
    rewrite link_checks_get, filter_app.
    rewrite filter_cons_False by (by intros ?).
    by rewrite filter_nil, app_nil_r.
  - intros s link sc ok (n & H1 & H2) _. exists (S n). simpl.
    rewrite link_checks_head, filter_app, !length_app.
    rewrite filter_cons_True by done. simpl. lia.
  - exists 0%nat. by rewrite !Nat.add_0_r.
Qed.

(** What the collaborators hold after a list of records was replayed. *)
Lemma replay_counts new : ∀ u,
  safe u →
  length (markdown_calls (foldl replay u new)) =
    (length (markdown_calls u) + if live_log then length new else 0)%nat ∧
  progress_state (foldl replay u new) =
    (if progress_bar
     then (λ '(current, total),
             (current + Z.of_nat (length (filter (λ x, rec_note x ≠ "PAGE ERROR")
                                                 new)), total))
            <$> progress_state u
     else progress_state u) ∧
  length (progress_calls (foldl replay u new)) =
    (length (progress_calls u) +
     if progress_bar
     then match progress_state u with
          | Some _ => length (filter (λ x, rec_note x ≠ "PAGE ERROR") new)
          | None => 0
          end
     else 0)%nat.
Proof.
  induction new as [|r new IH]; intros u Hs.
  - rewrite filter_nil. cbn [foldl length]. split_and!.
    + destruct live_log; lia.
    + destruct progress_bar; [|done].
      destruct (progress_state u) as [[c t]|]; simpl; [|done].
      by rewrite Z.add_0_r.
    + destruct progress_bar, (progress_state u); lia.
  - cbn [foldl].
    destruct (IH (replay u r) (safe_replay _ _ _ _ Hs)) as (H1 & H2 & H3).
    rewrite H1, H2, H3. clear IH H1 H2 H3.
    unfold replay, notify, progress_update.
    destruct (decide (rec_note r = "PAGE ERROR")) as [Hn|Hn].
    + rewrite bool_decide_eq_true_2 by done.
      rewrite filter_cons_False by (by intros ?).
      destruct live_log, progress_bar; simpl; rewrite ?length_app; simpl;
        split_and!; try done; lia.
    + rewrite bool_decide_eq_false_2 by done.
      rewrite filter_cons_True by done. cbn [length].
      destruct progress_bar.
      * destruct live_log; simpl;
          (destruct (progress_state u) as [[c t]|] eqn:Hp; simpl;
           [rewrite bool_decide_eq_false_2 by (by eapply Hs); simpl;
            rewrite ?length_app; simpl;
            split_and!; [lia|f_equal; f_equal; lia|lia]
           |rewrite ?Hp; simpl; rewrite ?length_app; simpl;
            split_and!; [lia|done|lia]]).
      * destruct live_log; simpl; rewrite ?length_app; simpl;
          split_and!; try done; lia.
Qed.

(** X11. When the division of the progress update cannot fail, [crawl]
    with its collaborators does what [crawl] does without them: it
    runs out of fuel when [crawl] does, and otherwise ends as [crawl]
    ends, by returning or on the same exception of a library, with the
    same [visited], [results] and requests, having told the
    collaborators what the new records say, one after the other. *)
Theorem crawl_with_collaborators fuel url base_netloc depth max_depth st u :
  safe u →
  crawl_ui fuel url base_netloc depth max_depth st u =
    match crawl fuel url base_netloc depth max_depth st with
    | Some (r, st') =>
        Some (as_ended r, st',
              foldl replay u (drop (length (results st)) (results st')))
    | None => None
    end.
Proof.
  intros Hs.
  destruct (follows_crawl netloc urljoin BeautifulSoup set_iter net
              progress_bar live_log fuel url base_netloc depth max_depth st u Hs)
    as [[-> ->]|(r & st' & new & -> & Hres & ->)]; [done|].
  by rewrite Hres, drop_app_length.
Qed.

(** X12. When the division cannot fail, a call with the collaborators
    that comes to an end ends as the call without them, so not on a
    [ZeroDivisionError]; it has written one line to the live log for
    each new record, has moved [current] up by the number of links
    probed and left [total] alone, and has called the progress bar once
    for each link probed; a collaborator that is not passed is left
    alone. *)
Theorem crawl_collaborators_counts fuel url base_netloc depth max_depth
    st u e st' u' :
  safe u →
  crawl_ui fuel url base_netloc depth max_depth st u = Some (e, st', u') →
  (∃ r, crawl fuel url base_netloc depth max_depth st = Some (r, st') ∧
        e = as_ended r) ∧
  e ≠ Failed ZeroDivisionError ∧
  ∃ n_records n_probes : nat,
    length (results st') = (length (results st) + n_records)%nat ∧
    length (link_checks (sent st')) =
      (length (link_checks (sent st)) + n_probes)%nat ∧
    length (markdown_calls u') =
      (length (markdown_calls u) + if live_log then n_records else 0)%nat ∧
    progress_state u' =
      (if progress_bar
       then (λ '(current, total), (current + Z.of_nat n_probes, total))
              <$> progress_state u
       else progress_state u) ∧
    length (progress_calls u') =
      (length (progress_calls u) +
       if progress_bar
       then match progress_state u with Some _ => n_probes | None => 0 end
       else 0)%nat.
Proof.
  intros Hs Hrun.
  destruct (follows_crawl netloc urljoin BeautifulSoup set_iter net
              progress_bar live_log fuel url base_netloc depth max_depth st u Hs)
    as [[_ Hnone]|(r & st2 & new & Hc & Hres & Hui)]; [congruence|].
  rewrite Hui in Hrun. simplify_eq. split; [by exists r|].
  split; [by destruct r|].
  destruct (crawl_probes_counted _ _ _ _ _ _ _ _ Hc) as (n & Hn1 & Hn2).
  rewrite Hres, filter_app, length_app in Hn1.
  assert (length (filter (λ x, rec_note x ≠ "PAGE ERROR") new) = n) as Hn by lia.
  destruct (replay_counts new u Hs) as (H1 & H2 & H3).
  exists (length new), n. rewrite Hres, length_app, H1, H2, H3, Hn. done.
Qed.

Lemma crawl_links_ui_skips base_netloc recurse skipped rest st u :
  (∀ x, x ∈ skipped → x ∈ visited st) →
  crawl_links_ui base_netloc recurse (skipped ++ rest) st u =
    crawl_links_ui base_netloc recurse rest st u.
Proof.
  induction skipped as [|x skipped IH]; intros Hsk; [done|].
  rewrite <- app_comm_cons.
  rewrite (crawl_links_ui_skip netloc net progress_bar live_log)
    by (apply Hsk; by left).
  apply IH. intros y Hy. apply Hsk. by right.
Qed.

(** X13. When the progress bar is passed together with a
    [progress_state] whose total is zero, the first link that [crawl]
    probes ends the call on a [ZeroDivisionError]: the link has been
    probed and recorded and [current] has gone up by one, the bar has
    not been called, and nothing further is crawled. *)
Theorem crawl_zero_total fuel url base_netloc depth max_depth st u
    current page skipped link rest :
  progress_bar = true →
  progress_state u = Some (current, 0) →
  depth ≤ max_depth → url ∉ visited st →
  fetch_page (clock st) url = Returned page →
  page_links page url = Returned (skipped ++ link :: rest) →
  (∀ x, x ∈ skipped → x ∈ {[url]} ∪ visited st) →
  link ∉ {[url]} ∪ visited st →
  ∃ st' u',
    crawl_ui (S fuel) url base_netloc depth max_depth st u
      = Some (Failed ZeroDivisionError, st', u') ∧
    visited st' = {[url]} ∪ visited st ∧
    results st' = results st ++
      [(link, (check_result (S (clock st)) link).1,
        (check_result (S (clock st)) link).2, "")] ∧
    sent st' = sent st ++ [GET url; HEAD link] ∧
    progress_state u' = Some (current + 1, 0) ∧
    progress_calls u' = progress_calls u.
Proof.
  intros Hbar Hp Hd Hv Hpage Hlinks Hskipped Hlink.
  rewrite (crawl_ui_go netloc urljoin BeautifulSoup set_iter net
             progress_bar live_log) by done.
  cbv zeta. rewrite Hpage, Hlinks.
  rewrite crawl_links_ui_skips by done.
  rewrite (crawl_links_ui_check netloc net progress_bar live_log) by done.
  replace (clock (log (GET url) (visited_add url st))) with (S (clock st))
    by (unfold clock; simpl; rewrite length_app; simpl; lia).
  destruct (check_result (S (clock st)) link) as [sc ok]. cbv zeta.
  unfold progress_update. rewrite Hbar.
  replace (progress_state (notify live_log (check_message link sc ok) u))
    with (Some (current, 0)) by (by destruct live_log).
  rewrite bool_decide_eq_true_2 by done.
  eexists _, _. split; [reflexivity|]. simpl.
  split_and!; [done|done|by rewrite <- app_assoc|done|by destruct live_log].
Qed.

Abbreviation estimate := (estimate urljoin BeautifulSoup net).

Lemma estimate_positive base_url : 1 ≤ estimate base_url.
Proof.
  unfold estimate. destruct (fetch_page 0 base_url); [|lia].
  destruct (BeautifulSoup _); [|lia].
  destruct (extract_links _ _ _); lia.
Qed.

End CollaboratorsFacts.

(** * The script *)

Section ScriptFacts.

Variable netloc : string → outcome string.
Variable urljoin : string → string → outcome string.
Variable BeautifulSoup : string → outcome Tag.
Variable set_iter : gset string → list string.
Variable net : network.

Abbreviation fetch_page := (fetch_page net).
Abbreviation crawl := (crawl netloc urljoin BeautifulSoup set_iter net).
Abbreviation estimate := (estimate urljoin BeautifulSoup net).
Abbreviation start_ui := (start_ui urljoin BeautifulSoup net).

Lemma start_ui_safe base_url : safe true (start_ui base_url).
Proof.
  intros _ current total [= <- <-].
  pose proof (estimate_positive urljoin BeautifulSoup net base_url). lia.
Qed.

(** X14. The script comes to an end, whatever the network answers,
    the first request included. When [urlparse] rejects the seed URL
    the script stops there, before any request. Otherwise it ends as
    [crawl] ends: on the exception of a library that ended [crawl], or,
    when [crawl] returned, by showing the aggregation of what [crawl]
    recorded and the report of the de-duplicated list. The total
    handed to [crawl] is at least 1, so no division fails. At the end
    [current] is the number of links probed, the bar was called that
    many times, and the live log has one line for each raw record.
    When the depth is not negative the seed page is requested twice,
    first for the estimate and then by [crawl]. On [Web.bad_net] the
    script stops on the [ValueError] of the seed page's malformed
    reference, and shows nothing. *)
Theorem main_ends timestamp base_url depth :
  (∀ e, netloc base_url = Raised e →
     ∀ fuel, main netloc urljoin BeautifulSoup set_iter net fuel
               timestamp base_url depth =
               Some (Failed (Exception e), init_state, no_ui)) ∧
  (∀ base_netloc, netloc base_url = Returned base_netloc →
   ∃ r st' u',
     (∀ extra,
        crawl (enough_fuel 0 depth + extra) base_url base_netloc 0 depth
          (start_state base_url) = Some (r, st')) ∧
     (∀ extra,
        main netloc urljoin BeautifulSoup set_iter net
          (enough_fuel 0 depth + extra) timestamp base_url depth =
          Some (match r with
                | Returned _ =>
                    Done (aggregate (results st'),
                          generate_html_report timestamp base_url base_netloc
                            (dedup_results (results st')))
                | Raised e => Failed (Exception e)
                end, st', u')) ∧
     1 ≤ estimate base_url ∧
     progress_state u' =
       Some (Z.of_nat (length (link_checks (sent st'))), estimate base_url) ∧
     length (progress_calls u') = length (link_checks (sent st')) ∧
     length (markdown_calls u') = length (results st') ∧
     (0 ≤ depth → [GET base_url; GET base_url] `prefix_of` sent st')) ∧
  (∃ st' u',
     main Web.netloc Web.urljoin Web.parse elements Web.bad_net 1
       "20250101_120000" Web.seed 0 =
       Some (Failed (Exception ValueError), st', u') ∧
     results st' = [] ∧
     sent st' = [GET Web.seed; GET Web.seed] ∧
     markdown_calls u' = []).
Proof.
  split; [|split].
  - intros e He fuel. unfold main. by rewrite He.
  - intros base_netloc Hnet.
    destruct (crawl_run_result netloc urljoin BeautifulSoup set_iter net
                base_url base_netloc 0 depth (start_state base_url))
      as (r & st' & Hrun).
    exists r, st', (foldl (replay true true) (start_ui base_url) (results st')).
    pose proof (start_ui_safe base_url) as Hs.
    destruct (crawl_probes_counted netloc urljoin BeautifulSoup set_iter net
                _ _ _ _ _ _ _ _ (Hrun 0%nat)) as (n & Hn1 & Hn2).
    simpl in Hn1, Hn2.
    destruct (replay_counts true true (results st') (start_ui base_url) Hs)
      as (H1 & H2 & H3).
    split_and!.
    + done.
    + intros extra. unfold main. rewrite Hnet.
      destruct (follows_crawl netloc urljoin BeautifulSoup set_iter net true true
                  (enough_fuel 0 depth + extra) base_url base_netloc 0 depth
                  (start_state base_url) (start_ui base_url) Hs)
        as [[Hnone _]|(r2 & st2 & new & Hc & Hres & ->)].
      * by rewrite Hrun in Hnone.
      * rewrite Hrun in Hc. simplify_eq. simpl in Hres. rewrite Hres.
        by destruct r2 as [[]|e].
    + apply estimate_positive.
    + rewrite H2. simpl. rewrite Hn1, Hn2. done.
    + rewrite H3. simpl. by rewrite Hn1, Hn2.
    + by rewrite H1.
    + intros Hd. specialize (Hrun 0%nat).
      by eapply (crawl_sends_request netloc urljoin BeautifulSoup set_iter net
                   _ _ _ _ _ (start_state base_url)) in Hrun as [? _].
  - eexists _, _. split_and!; vm_compute; reflexivity.
Qed.

End ScriptFacts.

(** * The report *)

Lemma string_app_assoc (s1 s2 s3 : string) :
  (s1 +:+ s2) +:+ s3 = s1 +:+ (s2 +:+ s3).
Proof.
  induction s1 as [|c s1 IH]; [done|].
  change (String c s1 +:+ s2) with (String c (s1 +:+ s2)).
  change (String c (s1 +:+ s2) +:+ s3) with (String c ((s1 +:+ s2) +:+ s3)).
  by rewrite IH.
Qed.

Lemma count_char_app (c : ascii) (s1 s2 : string) :
  count_char c (s1 +:+ s2) = (count_char c s1 + count_char c s2)%nat.
Proof.
  induction s1 as [|c1 s1 IH]; [done|].
  change (String c1 s1 +:+ s2) with (String c1 (s1 +:+ s2)).
  cbn [count_char]. rewrite IH. lia.
Qed.

Lemma string_length_app (s1 s2 : string) :
  String.length (s1 +:+ s2) = (String.length s1 + String.length s2)%nat.
Proof.
  induction s1 as [|c1 s1 IH]; [done|].
  change (String c1 s1 +:+ s2) with (String c1 (s1 +:+ s2)).
  cbn [String.length]. by rewrite IH.
Qed.

Lemma count_char_replaced (old new : ascii) (s : string) :
  old ≠ new → count_char old (replace_char old new s) = 0%nat.
Proof.
  intros Hne. induction s as [|c s IH]; [done|]. cbn [replace_char count_char].
  rewrite IH. destruct (Ascii.eqb c old) eqn:Hc.
  - destruct (Ascii.eqb new old) eqn:Hn; [|done].
    apply Ascii.eqb_eq in Hn. congruence.
  - by rewrite Hc.
Qed.

Lemma string_length_replace_char (old new : ascii) (s : string) :
  String.length (replace_char old new s) = String.length s.
Proof. induction s as [|c s IH]; [done|]. cbn. by rewrite IH. Qed.

Lemma string_app_nil_r (s : string) : s +:+ "" = s.
Proof.
  induction s as [|c s IH]; [done|].
  change (String c s +:+ "") with (String c (s +:+ "")). by rewrite IH.
Qed.

Lemma string_concat_cons (x : string) (xs : list string) :
  String.concat "" (x :: xs) = x +:+ String.concat "" xs.
Proof.
  destruct xs as [|y ys].
  - cbn [String.concat]. by rewrite string_app_nil_r.
  - reflexivity.
Qed.

Lemma foldl_append (f : LinkRecord → string) (l : list LinkRecord) :
  ∀ acc, foldl (λ acc r, acc +:+ f r) acc l
         = acc +:+ String.concat "" (f <$> l).
Proof.
  induction l as [|r l IH]; intros acc.
  - cbn [foldl fmap list_fmap String.concat]. by rewrite string_app_nil_r.
  - cbn [foldl]. by rewrite IH, fmap_cons, string_concat_cons, string_app_assoc.
Qed.

Lemma ok_partition (l : list LinkRecord) :
  length l = (length (filter (λ r, rec_ok r = true) l) +
              length (filter (λ r, rec_ok r = false) l))%nat.
Proof.
  induction l as [|[[[u sc] ok] note] l IH]; [done|]. destruct ok.
  - rewrite filter_cons_True, filter_cons_False by done. simpl. lia.
  - rewrite filter_cons_False, filter_cons_True by done. simpl. lia.
Qed.

(** X15. The file name of the report is made of the host, with every
    dot turned into an underscore, and of the timestamp: it is 25
    characters longer than the two together, it has one dot more than
    the timestamp (the one of the extension), and it does not depend on
    the results nor on the seed URL. *)
Theorem report_filename timestamp base_url base_netloc results :
  let filename :=
    (generate_html_report timestamp base_url base_netloc results).1 in
  count_char "."%char filename = S (count_char "."%char timestamp) ∧
  String.length filename =
    (String.length base_netloc + String.length timestamp + 25)%nat ∧
  ∀ base_url' results',
    (generate_html_report timestamp base_url' base_netloc results').1 = filename.
Proof.
  cbv zeta. unfold generate_html_report. cbn [fst]. split_and!.
  - rewrite !count_char_app, count_char_replaced by done.
    change (count_char "." "broken_link_report_") with 0%nat.
    change (count_char "." "_") with 0%nat.
    change (count_char "." ".html") with 1%nat. lia.
  - rewrite !string_length_app, string_length_replace_char.
    change (String.length "broken_link_report_") with 19%nat.
    change (String.length "_") with 1%nat.
    change (String.length ".html") with 5%nat. lia.
  - done.
Qed.

(** X16. The page of the report shows the number of records, the
    number flagged [True] and the number flagged [False], and then one
    item for each record, in the order of the list, between a fixed
    head and a fixed tail. *)
Theorem report_html timestamp base_url base_netloc results :
  (generate_html_report timestamp base_url base_netloc results).2 =
    "<html><head><title>Broken Link Report</title></head><body>"
    +:+ ("<h2>Broken Link Report for " +:+ base_url +:+ "</h2>")
    +:+ ("<p><b>Total links checked:</b> "
         +:+ pretty (Z.of_nat (length results)) +:+ "<br>")
    +:+ ("<b>Working links:</b> "
         +:+ pretty (Z.of_nat (length (filter (λ r, rec_ok r = true) results)))
         +:+ "<br>")
    +:+ ("<b>Broken links:</b> "
         +:+ pretty (Z.of_nat (length (filter (λ r, rec_ok r = false) results)))
         +:+ "</p><ul>")
    +:+ String.concat "" (report_item <$> results)
    +:+ "</ul></body></html>".
Proof.
  unfold generate_html_report. cbn [snd].
  rewrite foldl_append, broken_count. unfold total.
  replace (Z.of_nat (length results) -
           Z.of_nat (length (filter (λ r, rec_ok r = false) results)))
    with (Z.of_nat (length (filter (λ r, rec_ok r = true) results)))
    by (pose proof (ok_partition results); lia).
  by rewrite !string_app_assoc.
Qed.


(** * The crawl and the summary together *)

Section SummaryFacts.

Variable netloc : string → outcome string.
Variable urljoin : string → string → outcome string.
Variable BeautifulSoup : string → outcome Tag.
Variable set_iter : gset string → list string.
Hypothesis set_iter_perm : ∀ s, set_iter s ≡ₚ elements s.
Variable net : network.

Abbreviation is_internal := (is_internal netloc).
Abbreviation fetch_page := (fetch_page net).
Abbreviation extract_links := (extract_links urljoin).
Abbreviation crawl := (crawl netloc urljoin BeautifulSoup set_iter net).

(** X17. After a crawl of depth 0 from the empty state whose seed page
    can be fetched and parsed, whose references can all be joined and
    on whose links [is_internal] answers, the raw result list has no
    URL twice, so the de-duplication leaves it alone, and the total of
    the summary is the number of distinct links of the seed page, the
    seed itself not counted. *)
Theorem summary_depth_zero seed base_netloc page soup links :
  fetch_page 0 seed = Returned page →
  BeautifulSoup (text page) = Returned soup →
  extract_links soup seed = Returned links →
  (∀ link, link ∈ links → link ≠ seed →
     ∃ b, is_internal link base_netloc = Returned b) →
  ∃ st', (∀ extra, crawl (enough_fuel 0 0 + extra) seed base_netloc 0 0
                     init_state = Some (Returned tt, st')) ∧
         NoDup (rec_url <$> results st') ∧
         dedup_results (results st') = results st' ∧
         total (dedup_results (results st')) =
           Z.of_nat (size (links ∖ {[seed]})).
Proof.
  intros Hpage Hsoup Hlinks Hint.
  destruct (crawl_run_result netloc urljoin BeautifulSoup set_iter net
              seed base_netloc 0 0 init_state) as (r & st' & Hrun).
  assert (page_links urljoin BeautifulSoup set_iter page seed
            = Returned (set_iter links)) as Hpl.
  { unfold page_links. by rewrite Hsoup, Hlinks. }
  assert (crawl 1 seed base_netloc 0 0 init_state = Some (r, st')) as Hone
    by exact (Hrun 0%nat).
  rewrite (crawl_leaf netloc urljoin BeautifulSoup set_iter net
             _ _ _ _ _ page (set_iter links)) in Hone; try done.
  2:{ intros link [Hne Hin]%list_elem_of_filter. apply Hint.
      - by rewrite (set_iter_perm links), elem_of_elements in Hin.
      - intros ->. apply Hne. apply elem_of_union_l.
        by apply elem_of_singleton. }
  simplify_eq. eexists. split; [exact Hrun|]. simpl.
  change (S (clock init_state)) with 1%nat.
  set (ls := unvisited ({[seed]} ∪ ∅) (set_iter links)).
  assert (NoDup ls) as Hnd.
  { apply NoDup_filter. rewrite (set_iter_perm links). apply NoDup_elements. }
  assert (rec_url <$> check_records net 1 ls = ls) as Hurls
    by apply check_records_urls.
  assert (dedup_results (check_records net 1 ls) = check_records net 1 ls)
    as Hfix by (apply dedup_results_NoDup; by rewrite Hurls).
  split_and!; [by rewrite Hurls|done|].
  rewrite Hfix. unfold total.
  rewrite <- (length_fmap rec_url), Hurls. f_equal.
  unfold size, set_size. simpl. apply Permutation_length.
  apply NoDup_Permutation; [done|apply NoDup_elements|].
  intros x. unfold ls, unvisited.
  rewrite list_elem_of_filter, (set_iter_perm links), !elem_of_elements.
  rewrite elem_of_difference, not_elem_of_union.
  split; [intros [[? _] ?]; by split|intros [? ?]; split_and!; try done].
Qed.

End SummaryFacts.

(** * The further theorems at work on the example web *)

Lemma crawl_record_shapes_witness :
  ∃ r st', Web.run Web.example_net 1 = Some (r, st') ∧
           ∀ x, x ∈ results st' → rec_ok x = true → rec_note x = "".
Proof.
  destruct (crawl_record_shapes Web.netloc Web.urljoin Web.parse elements
              Web.example_net Web.seed "example.com" 1)
    as (r & st' & Hrun & _ & Hok).
  exists r, st'. split; [exact (Hrun 0%nat)|].
  intros x Hx Hflag. exact (proj1 (Hok x Hx Hflag)).
Defined.

Lemma crawl_fetch_follows_probe_witness :
  (Web.about ∉ visited (log (GET Web.seed) (visited_add Web.seed init_state))) ∧
  is_internal Web.netloc Web.about "example.com" = Returned true ∧
  1 ≤ 1 ∧
  crawl_links Web.netloc Web.deaf_net "example.com"
    (λ link, crawl Web.netloc Web.urljoin Web.parse elements Web.deaf_net 1
               link "example.com" 1 1)
    [Web.about] (log (GET Web.seed) (visited_add Web.seed init_state))
    = Some (Returned tt, Crawled.deaf_depth_1) ∧
  [GET Web.seed; HEAD Web.about; GET Web.about]
    `prefix_of` sent Crawled.deaf_depth_1.
Proof.
  assert (Web.about ∉ visited (log (GET Web.seed)
                                  (visited_add Web.seed init_state))) as Hv.
  { apply (bool_decide_unpack _). vm_compute. exact I. }
  assert (crawl_links Web.netloc Web.deaf_net "example.com"
            (λ link, crawl Web.netloc Web.urljoin Web.parse elements
                       Web.deaf_net 1 link "example.com" 1 1)
            [Web.about] (log (GET Web.seed) (visited_add Web.seed init_state))
          = Some (Returned tt, Crawled.deaf_depth_1)) as Hrun
    by (vm_compute; reflexivity).
  split_and!; [exact Hv|reflexivity|lia|exact Hrun|].
  exact (proj1 (proj1 (proj2 (crawl_fetch_follows_probe Web.netloc Web.urljoin
                                Web.parse elements Web.deaf_net
                                Web.seed "example.com" 1))
                  1%nat 1 Web.about []
                  (log (GET Web.seed) (visited_add Web.seed init_state))
                  (Returned tt) Crawled.deaf_depth_1
                  Hv eq_refl (Z.le_refl 1) Hrun)).
Defined.

Lemma crawl_only_appends_witness :
  Web.run Web.example_net 1 = Some (Returned tt, Crawled.depth_1) ∧
  results init_state `prefix_of` results Crawled.depth_1 ∧
  sent init_state `prefix_of` sent Crawled.depth_1 ∧
  visited init_state ⊆ visited Crawled.depth_1.
Proof.
  assert (Web.run Web.example_net 1 = Some (Returned tt, Crawled.depth_1))
    as Hrun by (vm_compute; reflexivity).
  split; [exact Hrun|].
  exact (crawl_only_appends Web.netloc Web.urljoin Web.parse elements
           Web.example_net _ _ _ _ _ _ _ _ Hrun).
Defined.

Lemma crawl_twice_witness :
  Web.run Web.example_net 1 = Some (Returned tt, Crawled.depth_1) ∧
  crawl Web.netloc Web.urljoin Web.parse elements Web.example_net 7
    Web.seed "example.com" 0 1 Crawled.depth_1
    = Some (Returned tt, Crawled.depth_1).
Proof.
  assert (Web.run Web.example_net 1 = Some (Returned tt, Crawled.depth_1))
    as Hrun by (vm_compute; reflexivity).
  split; [exact Hrun|].
  exact (proj1 (crawl_twice Web.netloc Web.urljoin Web.parse elements
                  Web.example_net _ 7 _ _ _ _ _ _ _ Hrun)).
Defined.

Lemma extract_links_size_witness :
  filter (λ e, name e ∈ ["a"; "img"; "script"; "link"])
         (descendants Crawled.plain_soup) = [] ∧
  extract_links Web.urljoin Crawled.plain_soup Web.seed = Returned ∅.
Proof.
  assert (filter (λ e, name e ∈ ["a"; "img"; "script"; "link"])
                 (descendants Crawled.plain_soup) = []) as Hnone
    by (vm_compute; reflexivity).
  split; [exact Hnone|].
  exact (proj2 (extract_links_size Web.urljoin Crawled.plain_soup Web.seed)
           Hnone).
Defined.

Lemma dedup_results_fixed_witness :
  NoDup (rec_url <$> [(Web.about, Some 200, true, "");
                      (Web.ext, None, false, "")]) ∧
  dedup_results [(Web.about, Some 200, true, ""); (Web.ext, None, false, "")]
    = [(Web.about, Some 200, true, ""); (Web.ext, None, false, "")].
Proof.
  assert (NoDup (rec_url <$> [(Web.about, Some 200, true, "");
                              (Web.ext, None, false, "")])) as Hnd.
  { apply (bool_decide_unpack _). vm_compute. exact I. }
  split; [exact Hnd|].
  exact (proj1 (dedup_results_fixed _) Hnd).
Defined.

Lemma crawl_with_collaborators_witness :
  safe true Crawled.ui_before ∧
  crawl_ui Web.netloc Web.urljoin Web.parse elements Web.example_net true true
    2 Web.seed "example.com" 0 1 init_state Crawled.ui_before
    = Some (Done tt, Crawled.depth_1, Crawled.ui_after).
Proof.
  assert (safe true Crawled.ui_before) as Hsafe.
  { intros _ current total [= <- <-]. lia. }
  split; [exact Hsafe|].
  rewrite (crawl_with_collaborators Web.netloc Web.urljoin Web.parse elements
             Web.example_net true true 2 Web.seed "example.com" 0 1
             init_state Crawled.ui_before Hsafe).
  vm_compute. reflexivity.
Defined.

Lemma crawl_collaborators_counts_witness :
  safe true Crawled.ui_before ∧
  crawl_ui Web.netloc Web.urljoin Web.parse elements Web.example_net true true
    2 Web.seed "example.com" 0 1 init_state Crawled.ui_before
    = Some (Done tt, Crawled.depth_1, Crawled.ui_after) ∧
  Done tt ≠ Failed ZeroDivisionError ∧
  ∃ n_records n_probes : nat,
    length (results Crawled.depth_1) = (0 + n_records)%nat ∧
    length (link_checks (sent Crawled.depth_1)) = (0 + n_probes)%nat ∧
    length (markdown_calls Crawled.ui_after) = (0 + n_records)%nat ∧
    progress_state Crawled.ui_after = Some (0 + Z.of_nat n_probes, 2).
Proof.
  assert (safe true Crawled.ui_before) as Hsafe.
  { intros _ current total [= <- <-]. lia. }
  assert (crawl_ui Web.netloc Web.urljoin Web.parse elements Web.example_net
            true true 2 Web.seed "example.com" 0 1 init_state Crawled.ui_before
          = Some (Done tt, Crawled.depth_1, Crawled.ui_after)) as Hrun
    by (vm_compute; reflexivity).
  split; [exact Hsafe|]. split; [exact Hrun|].
  destruct (crawl_collaborators_counts Web.netloc Web.urljoin Web.parse elements
              Web.example_net true true _ _ _ _ _ _ _ _ _ _ Hsafe Hrun)
    as (_ & Hne & n & m & H1 & H2 & H3 & H4 & _).
  split; [exact Hne|].
  exists n, m. exact (conj H1 (conj H2 (conj H3 H4))).
Defined.

Lemma crawl_zero_total_witness :
  ∃ st' u',
    crawl_ui Web.netloc Web.urljoin Web.parse elements Web.example_net true true
      1 Web.seed "example.com" 0 0 init_state Crawled.ui_zero
      = Some (Failed ZeroDivisionError, st', u') ∧
    results st' = [(Web.about, Some 200, true, "")] ∧
    sent st' = [GET Web.seed; HEAD Web.about] ∧
    progress_state u' = Some (1, 0) ∧
    progress_calls u' = [].
Proof.
  destruct (crawl_zero_total Web.netloc Web.urljoin Web.parse elements
              Web.example_net true true 0 Web.seed "example.com" 0 0
              init_state Crawled.ui_zero 0 Crawled.seed_page
              [] Web.about [Web.ext])
    as (st' & u' & Hrun & _ & Hres & Hsent & Hstate & Hcalls).
  - reflexivity.
  - reflexivity.
  - lia.
  - apply not_elem_of_empty.
  - reflexivity.
  - vm_compute. reflexivity.
  - intros x Hx. by apply elem_of_nil in Hx.
  - apply (bool_decide_unpack _). vm_compute. exact I.
  - exists st', u'. split; [exact Hrun|].
    split; [exact Hres|]. split; [exact Hsent|]. split; [exact Hstate|].
    exact Hcalls.
Defined.

Lemma main_ends_witness :
  Web.netloc Web.bad = Raised ValueError ∧
  main Web.netloc Web.urljoin Web.parse elements Web.example_net 2
    "20250101_120000" Web.bad 1
    = Some (Failed (Exception ValueError), init_state, no_ui).
Proof.
  split; [reflexivity|].
  exact (proj1 (main_ends Web.netloc Web.urljoin Web.parse elements
                  Web.example_net "20250101_120000" Web.bad 1)
           ValueError eq_refl 2%nat).
Defined.

Lemma summary_depth_zero_witness :
  (∀ s : gset string, elements s ≡ₚ elements s) ∧
  fetch_page Web.example_net 0 Web.seed = Returned Crawled.seed_page ∧
  ∃ st', crawl Web.netloc Web.urljoin Web.parse elements Web.example_net 1
           Web.seed "example.com" 0 0 init_state = Some (Returned tt, st') ∧
         total (dedup_results (results st')) = 2.
Proof.
  split; [done|]. split; [reflexivity|].
  destruct (summary_depth_zero Web.netloc Web.urljoin Web.parse elements
              (λ s, reflexivity (elements s)) Web.example_net
              Web.seed "example.com" Crawled.seed_page
              (mkTag "[document]" ∅ [Web.anchor Web.about; Web.anchor Web.ext])
              (list_to_set [Web.about; Web.ext]))
    as (st' & Hrun & _ & _ & Htotal).
  - reflexivity.
  - vm_compute. reflexivity.
  - vm_compute. reflexivity.
  - intros link Hin%elem_of_list_to_set _. revert link Hin.
    apply Forall_forall. repeat constructor; by eexists.
  - exists st'. split; [exact (Hrun 0%nat)|].
    rewrite Htotal. vm_compute. reflexivity.
Defined.
